(** * Sendly Node SDK: resilient request layer, error taxonomy and webhook verifier

    A shallow embedding of [src/errors.ts], [src/utils/http.ts], [src/client.ts]
    and [src/utils/webhooks.ts] (bundled as one file in the distribution), with
    the properties of the request layer and of the webhook verifier proved over
    it.

    Conventions.
    - JavaScript strings are modelled as [string] (their UTF-8 byte sequence).
    - JavaScript numbers that hold counts, statuses and durations are modelled
      as [Z]; the back-off delay, which involves [Math.random()], as [Q]. In
      particular [maxRetries] and [timeout] are whole numbers: a fractional
      or infinite number of retries is outside the model.
    - [undefined] is [None]; a thrown exception is the left injection of a sum.
    - The host platform (URL parser, JSON parser, HMAC) is the class
      [Platform]; every theorem holds for all platforms, and [Reference]
      provides an executable one for evaluation. *)

From Stdlib Require Import ZArith QArith Qminmax List String Ascii Bool Lia Lqa.
From Stdlib Require Import DecimalString.
Import ListNotations.
Open Scope string_scope.

(** ** JavaScript values *)

Module Js.

Set Warnings "-register-all".

(** A JSON-shaped JavaScript value; [undefined] is the absence of a value. *)
Inductive value : Type :=
| Null
| Bool (b : bool)
| Num (n : Z)
| Str (s : string)
| Arr (l : list value)
| Obj (kvs : list (string * value)).

Definition object := list (string * value).

(** ToBoolean. *)
Definition truthy (v : value) : bool :=
  match v with
  | Null => false
  | Bool b => b
  | Num n => negb (n =? 0)%Z
  | Str s => negb (s =? "")
  | Arr _ | Obj _ => true
  end.

Definition truthy_opt (o : option value) : bool :=
  match o with
  | Some v => truthy v
  | None => false
  end.

(** [a || d] where [d] is a value. *)
Definition or (a : option value) (d : value) : value :=
  match a with
  | Some v => if truthy v then v else d
  | None => d
  end.

(** [o[k]] on an object literal or a [JSON.parse] result. *)
Fixpoint get (k : string) (o : object) : option value :=
  match o with
  | [] => None
  | (k', v) :: o' => if k' =? k then Some v else get k o'
  end.

(** [{...o, k: v}]: the key keeps its place when [o] has it, and is added
    last otherwise. *)
Fixpoint set (k : string) (v : value) (o : object) : object :=
  match o with
  | [] => [(k, v)]
  | (k', v') :: o' => if k' =? k then (k, v) :: o' else (k', v') :: set k v o'
  end.

Definition string_of_nat (n : nat) : string :=
  NilZero.string_of_uint (Nat.to_uint n).

Definition string_of_Z (z : Z) : string :=
  NilZero.string_of_int (Z.to_int z).

Fixpoint indexed {A} (f : A -> value) (i : nat) (l : list A) : object :=
  match l with
  | [] => []
  | x :: l' => (string_of_nat i, f x) :: indexed f (S i) l'
  end.

(** The own enumerable properties copied by a spread [{...v}]: the entries of
    an object, the indexed elements of an array, the indexed characters of a
    string, and nothing for the other primitives. The characters of a string
    are taken byte by byte, which is the spread of JavaScript for ASCII
    text. *)
Definition spread (v : value) : object :=
  match v with
  | Obj kvs => kvs
  | Arr l => indexed (fun x => x) 0 l
  | Str s => indexed (fun c => Str (String c "")) 0 (list_ascii_of_string s)
  | Null | Bool _ | Num _ => []
  end.

(** [v?.k] for a key that is neither an index nor a built-in property
    ([error], [message], [id], [type], [createdAt], ...): only objects have it. *)
Definition get_opt (v : value) (k : string) : option value :=
  match v with
  | Obj kvs => get k kvs
  | _ => None
  end.

(** [s.includes(sub)]. *)
Fixpoint includes (s sub : string) : bool :=
  prefix sub s ||
  match s with
  | EmptyString => false
  | String _ s' => includes s' sub
  end.

(** [s.startsWith(p)] with the remainder: [Some rest] when [s = p ++ rest]. *)
Fixpoint strip_prefix (p s : string) : option string :=
  match p, s with
  | EmptyString, _ => Some s
  | String a p', String b s' => if Ascii.eqb a b then strip_prefix p' s' else None
  | String _ _, EmptyString => None
  end.

Definition forall_chars (f : ascii -> bool) (s : string) : bool :=
  forallb f (list_ascii_of_string s).

Definition in_range (lo hi : nat) (c : ascii) : bool :=
  let n := nat_of_ascii c in (lo <=? n)%nat && (n <=? hi)%nat.

Definition is_digit (c : ascii) : bool := in_range 48 57 c.
Definition is_upper (c : ascii) : bool := in_range 65 90 c.
Definition is_lower (c : ascii) : bool := in_range 97 122 c.

Definition to_lower_char (c : ascii) : ascii :=
  if is_upper c then ascii_of_nat (nat_of_ascii c + 32) else c.

Fixpoint to_lower (s : string) : string :=
  match s with
  | EmptyString => EmptyString
  | String c s' => String (to_lower_char c) (to_lower s')
  end.

End Js.

(** ** The host platform *)

(** What [new URL(s)] exposes to the client: [protocol] (with its colon) and
    [hostname]. *)
Record URL : Type := mkURL { protocol : string; hostname : string }.

(** The three pure services the code takes from Node.js.
    - [URL_parse s] is [new URL(s)], [None] when it throws [TypeError];
    - [JSON_parse s] is [JSON.parse(s)], [None] when it throws [SyntaxError];
    - [hmac_sha256_hex key msg] is
      [crypto.createHmac("sha256", key).update(msg).digest("hex")]. *)
Class Platform : Type := {
  URL_parse : string -> option URL;
  JSON_parse : string -> option Js.value;
  hmac_sha256_hex : string -> string -> string
}.

(** ** src/errors.ts *)

(** The error classes. Each constructor is one class and carries what its
    JavaScript constructor is given: [message], [code], [statusCode] and
    [response] of the base class, and the fields the subclass adds. The
    [message] is handed to [Error], which keeps a string as it is and
    converts any other value to a string; that conversion is not modelled,
    and the statements speak of the message only where it is a string. The code
    of [RateLimitError], [InsufficientCreditsError], [NotFoundError],
    [NetworkError] and [TimeoutError] is fixed by the class, and the last
    two have no status; the [cause] of a [NetworkError] is kept by its name. *)
Inductive SendlyError : Type :=
| BaseSendlyError (message code : Js.value) (statusCode : option Z)
    (response : option Js.object)
| AuthenticationError (message code : Js.value) (statusCode : option Z)
    (response : option Js.object)
| RateLimitError (message retryAfter : Js.value) (statusCode : option Z)
    (response : option Js.object)
| InsufficientCreditsError (message creditsNeeded currentBalance : Js.value)
    (statusCode : option Z) (response : option Js.object)
| ValidationError (message code : Js.value) (statusCode : option Z)
    (response : option Js.object)
| NotFoundError (message : Js.value) (statusCode : option Z)
    (response : option Js.object)
| NetworkError (message : string) (cause : option string)
| TimeoutError (message : string).

Definition statusCode_of (e : SendlyError) : option Z :=
  match e with
  | BaseSendlyError _ _ st _ | AuthenticationError _ _ st _
  | RateLimitError _ _ st _ | InsufficientCreditsError _ _ _ st _
  | ValidationError _ _ st _ | NotFoundError _ st _ => st
  | NetworkError _ _ | TimeoutError _ => None
  end.

Definition code_of (e : SendlyError) : Js.value :=
  match e with
  | BaseSendlyError _ c _ _ | AuthenticationError _ c _ _
  | ValidationError _ c _ _ => c
  | RateLimitError _ _ _ _ => Js.Str "rate_limit_exceeded"
  | InsufficientCreditsError _ _ _ _ _ => Js.Str "insufficient_credits"
  | NotFoundError _ _ _ => Js.Str "not_found"
  | NetworkError _ _ | TimeoutError _ => Js.Str "internal_error"
  end.

(** [e instanceof RateLimitError]. *)
Definition isRateLimitError (e : SendlyError) : bool :=
  match e with
  | RateLimitError _ _ _ _ => true
  | _ => false
  end.

(** The [retryAfter] field of a [RateLimitError] ([undefined] on the others). *)
Definition retryAfter_of (e : SendlyError) : option Js.value :=
  match e with
  | RateLimitError _ r _ _ => Some r
  | _ => None
  end.

(** The [switch (code)] of [fromResponse]: [case] labels compare with [===],
    so only a string selects a labelled branch. *)
Inductive CodeBranch : Type :=
| BrAuthentication | BrRateLimit | BrInsufficientCredits | BrValidation
| BrNotFound | BrDefault.

Definition among (s : string) (l : list string) : bool :=
  existsb (String.eqb s) l.

Definition code_branch (code : Js.value) : CodeBranch :=
  match code with
  | Js.Str s =>
      if among s ["unauthorized"; "invalid_auth_format"; "invalid_key_format";
                  "invalid_api_key"; "key_revoked"; "key_expired";
                  "insufficient_permissions"] then BrAuthentication
      else if s =? "rate_limit_exceeded" then BrRateLimit
      else if s =? "insufficient_credits" then BrInsufficientCredits
      else if among s ["invalid_request"; "unsupported_destination"]
      then BrValidation
      else if s =? "not_found" then BrNotFound
      else BrDefault
  | _ => BrDefault
  end.

(** [SendlyError.fromResponse(statusCode, response)]. *)
Definition fromResponse (statusCode : Z) (response : Js.object) : SendlyError :=
  let message :=
    Js.or (Js.get "message" response) (Js.Str "An unknown error occurred") in
  let code := Js.or (Js.get "error" response) (Js.Str "internal_error") in
  match code_branch code with
  | BrAuthentication =>
      AuthenticationError message code (Some statusCode) (Some response)
  | BrRateLimit =>
      RateLimitError message
        (Js.or (Js.get "retryAfter" response) (Js.Num 60))
        (Some statusCode) (Some response)
  | BrInsufficientCredits =>
      InsufficientCreditsError message
        (Js.or (Js.get "creditsNeeded" response) (Js.Num 0))
        (Js.or (Js.get "currentBalance" response) (Js.Num 0))
        (Some statusCode) (Some response)
  | BrValidation =>
      ValidationError message code (Some statusCode) (Some response)
  | BrNotFound => NotFoundError message (Some statusCode) (Some response)
  | BrDefault => BaseSendlyError message code (Some statusCode) (Some response)
  end.

(** Everything the modelled code can throw. *)
Inductive Thrown : Type :=
| ThrowSendly (e : SendlyError)
| ThrowError (message : string)
| ThrowTypeError (message : string)
| ThrowSyntaxError
| ThrowRangeError (message : string)
| ThrowWebhookSignatureError (message : string).

Definition Result (A : Type) : Type := (Thrown + A)%type.

(** ** src/utils/http.ts *)

Definition DEFAULT_BASE_URL : string := "https://sendly.live/api/".
Definition DEFAULT_TIMEOUT : Z := 30000.
Definition DEFAULT_MAX_RETRIES : Z := 3.

(** The configuration object a caller passes ([SendlyConfig]): every field
    but [apiKey] is optional. *)
Record SendlyConfig : Type := mkSendlyConfig {
  cfg_apiKey : string;
  cfg_baseUrl : option string;
  cfg_timeout : option Z;
  cfg_maxRetries : option Z
}.

(** The resolved configuration a client stores. *)
Record Config : Type := mkConfig {
  apiKey : string;
  baseUrl : string;
  timeout : Z;
  maxRetries : Z
}.

(** A number that may be [NaN], as [parseInt] returns. *)
Inductive Number : Type :=
| NaN
| Int (z : Z).

Record RateLimitInfo : Type := mkRateLimitInfo {
  limit : Number;
  remaining : Number;
  reset : Number
}.

Record HttpClient : Type := mkHttpClient {
  config : Config;
  rateLimitInfo : option RateLimitInfo
}.

(** [s || d] on an optional string: the empty string is falsy. *)
Definition or_string (s : option string) (d : string) : string :=
  match s with
  | Some v => if v =? "" then d else v
  | None => d
  end.

(** [n || d] on an optional number: zero is falsy. *)
Definition or_number (n : option Z) (d : Z) : Z :=
  match n with
  | Some v => if (v =? 0)%Z then d else v
  | None => d
  end.

(** [n ?? d] on an optional number: only [undefined] takes the default. *)
Definition nullish_number (n : option Z) (d : Z) : Z :=
  match n with
  | Some v => v
  | None => d
  end.

(** The character class [[a-zA-Z0-9_-]]. *)
Definition is_key_char (c : ascii) : bool :=
  Js.is_lower c || Js.is_upper c || Js.is_digit c ||
  Ascii.eqb c "_" || Ascii.eqb c "-".

(** The tail [[a-zA-Z0-9_-]+$] of the key pattern. *)
Definition is_key_token (s : string) : bool :=
  negb (s =? "") && Js.forall_chars is_key_char s.

(** [isValidApiKey(key)]: [/^sk_(test|live)_v1_[a-zA-Z0-9_-]+$/.test(key)]. *)
Definition isValidApiKey (key : string) : bool :=
  match Js.strip_prefix "sk_" key with
  | None => false
  | Some env_rest =>
      match Js.strip_prefix "test" env_rest, Js.strip_prefix "live" env_rest with
      | Some rest, _ | None, Some rest =>
          match Js.strip_prefix "_v1_" rest with
          | Some token => is_key_token token
          | None => false
          end
      | None, None => false
      end
  end.

Definition INVALID_KEY_MESSAGE : string :=
  "Invalid API key format. Expected sk_test_v1_xxx or sk_live_v1_xxx".

Definition INSECURE_URL_MESSAGE : string :=
  "API key must only be transmitted over HTTPS. Use https:// or localhost for development.".

(** The base-URL guard of the constructor: [true] when it throws. *)
Definition insecure (u : URL) : bool :=
  negb (protocol u =? "https:") &&
  negb (Js.includes (hostname u) "localhost") &&
  negb (hostname u =? "127.0.0.1").

Section Constructor.

Context {P : Platform}.

(** The configuration the constructor stores before it validates it. *)
Definition resolve (c : SendlyConfig) : Config :=
  {| apiKey := cfg_apiKey c;
     baseUrl := or_string (cfg_baseUrl c) DEFAULT_BASE_URL;
     timeout := or_number (cfg_timeout c) DEFAULT_TIMEOUT;
     maxRetries := nullish_number (cfg_maxRetries c) DEFAULT_MAX_RETRIES |}.

(** [new HttpClient(config)]. It takes no transport: nothing of the network
    is in its reach. *)
Definition HttpClient_new (c : SendlyConfig) : Result HttpClient :=
  let config := resolve c in
  if negb (isValidApiKey (apiKey config)) then
    inl (ThrowError INVALID_KEY_MESSAGE)
  else
    match URL_parse (baseUrl config) with
    | None => inl (ThrowTypeError "Invalid URL")
    | Some u =>
        if insecure u then inl (ThrowError INSECURE_URL_MESSAGE)
        else inr {| config := config; rateLimitInfo := None |}
    end.

End Constructor.

(** [getRateLimitInfo()]. *)
Definition getRateLimitInfo (c : HttpClient) : option RateLimitInfo :=
  rateLimitInfo c.

(** [isTestMode()]. *)
Definition isTestMode (c : HttpClient) : bool :=
  prefix "sk_test_" (apiKey (config c)).

(** *** Response headers *)

(** A [Headers] object: the header lines in order. *)
Definition Headers : Type := list (string * string).

Fixpoint join (sep : string) (l : list string) : string :=
  match l with
  | [] => ""
  | [x] => x
  | x :: l' => x ++ sep ++ join sep l'
  end.

(** [headers.get(name)]: names compare without regard to case, the values of
    repeated headers are joined with a comma and a space, and a header that
    does not occur gives [null]. *)
Definition Headers_get (name : string) (h : Headers) : option string :=
  match filter (fun kv => Js.to_lower (fst kv) =? Js.to_lower name) h with
  | [] => None
  | hits => Some (join ", " (map snd hits))
  end.

(** *** parseInt *)

(** The white space [parseInt] skips, as far as it is ASCII: tab, line
    feed, vertical tab, form feed, carriage return and space. *)
Definition is_space (c : ascii) : bool :=
  let n := nat_of_ascii c in
  ((9 <=? n)%nat && (n <=? 13)%nat) || (n =? 32)%nat.

Fixpoint skip_spaces (s : string) : string :=
  match s with
  | String c s' => if is_space c then skip_spaces s' else s
  | EmptyString => s
  end.

(** The value of the longest prefix of decimal digits, most significant
    first, with the number of digits read. *)
Fixpoint read_digits (s : string) (acc : Z) (count : nat) : Z * nat :=
  match s with
  | String c s' =>
      if Js.is_digit c
      then read_digits s' (10 * acc + Z.of_nat (nat_of_ascii c - 48)) (S count)
      else (acc, count)
  | EmptyString => (acc, count)
  end.

(** [parseInt(s, 10)]. *)
Definition parseInt (s : string) : Number :=
  let s1 := skip_spaces s in
  let '(negative, s2) :=
    match s1 with
    | String "-" r => (true, r)
    | String "+" r => (false, r)
    | _ => (false, s1)
    end in
  match read_digits s2 0 0 with
  | (_, O) => NaN
  | (n, S _) => Int (if negative then (- n)%Z else n)
  end.

(** A string that may be [null] or [undefined], used as a condition: only a
    non-empty string is truthy. *)
Definition present (v : option string) : bool :=
  match v with
  | Some s => negb (s =? "")
  | None => false
  end.

(** The string behind a value that [present] has let through. *)
Definition text_of (s : option string) : string :=
  match s with
  | Some v => v
  | None => ""
  end.

(** [updateRateLimitInfo(headers)]. *)
Definition updateRateLimitInfo (c : HttpClient) (headers : Headers) : HttpClient :=
  let limit := Headers_get "X-RateLimit-Limit" headers in
  let remaining := Headers_get "X-RateLimit-Remaining" headers in
  let reset := Headers_get "X-RateLimit-Reset" headers in
  if present limit && present remaining && present reset then
    {| config := config c;
       rateLimitInfo :=
         Some {| limit := parseInt (text_of limit);
                 remaining := parseInt (text_of remaining);
                 reset := parseInt (text_of reset) |} |}
  else c.

(** *** One exchange *)

(** A [Response] as the client reads it: [json] is what [response.json()]
    resolves to ([None] when it rejects with a [SyntaxError]) and [text] what
    [response.text()] resolves to. *)
Record Response : Type := mkResponse {
  status : Z;
  headers : Headers;
  json : option Js.value;
  text : string
}.

(** [response.ok]. *)
Definition ok (r : Response) : bool :=
  (200 <=? status r)%Z && (status r <=? 299)%Z.

(** How one [fetch] call settles. A rejection carries the [name] and the
    [message] of its reason; the abort of the time-out timer rejects with the
    name [AbortError]. *)
Inductive FetchOutcome : Type :=
| Fulfilled (r : Response)
| Rejected (name message : string).

(** [executeRequest(url, init)], given how its [fetch] settles. *)
Definition executeRequest (c : HttpClient) (o : FetchOutcome) : Result Response :=
  match o with
  | Fulfilled response => inr response
  | Rejected name message =>
      if name =? "AbortError" then
        inl (ThrowSendly (TimeoutError
          ("Request timed out after " ++ Js.string_of_Z (timeout (config c)) ++ "ms")))
      else
        inl (ThrowSendly (NetworkError
          ("Network request failed: " ++ message) (Some name)))
  end.

(** The body handed to [fromResponse]:
    [{...data, error: data?.error || "internal_error",
      message: data?.message || `HTTP ${status}`}]. *)
Definition errorBody (st : Z) (data : Js.value) : Js.object :=
  Js.set "message"
    (Js.or (Js.get_opt data "message") (Js.Str ("HTTP " ++ Js.string_of_Z st)))
    (Js.set "error"
       (Js.or (Js.get_opt data "error") (Js.Str "internal_error"))
       (Js.spread data)).

(** The first half of [parseResponse]: the body, read as JSON when the
    content type declares it and as text otherwise. *)
Definition readBody (response : Response) : Result Js.value :=
  let contentType := Headers_get "content-type" (headers response) in
  if match contentType with
     | Some ct => Js.includes ct "application/json"
     | None => false
     end
  then match json response with
       | Some v => inr v
       | None => inl ThrowSyntaxError
       end
  else inr (Js.Str (text response)).

(** [parseResponse(response)]. *)
Definition parseResponse (response : Response) : Result Js.value :=
  match readBody response with
  | inl e => inl e
  | inr data =>
      if negb (ok response)
      then inl (ThrowSendly (fromResponse (status response)
                               (errorBody (status response) data)))
      else inr data
  end.

(** The body of the [try] block of [request]: one exchange, the rate-limit
    update, and the parse. The client is returned with its snapshot as the
    attempt leaves it. *)
Definition attempt_once (c : HttpClient) (o : FetchOutcome)
  : Result Js.value * HttpClient :=
  match executeRequest c o with
  | inl e => (inl e, c)
  | inr response =>
      let c' := updateRateLimitInfo c (headers response) in
      (parseResponse response, c')
  end.

(** *** Retry policy *)

(** [calculateBackoff(attempt)], with the value [rand] that [Math.random()]
    returns. *)
Definition calculateBackoff (rand : Q) (attempt : nat) : Q :=
  let baseDelay := inject_Z (2 ^ Z.of_nat attempt) * 1000 in
  let jitter := rand * 500 in
  Qmin (baseDelay + jitter) 30000.

Definition statusCode_is (e : SendlyError) (st : Z) : bool :=
  match statusCode_of e with
  | Some s => (s =? st)%Z
  | None => false
  end.

(** The [catch] block's test: [true] when the error is thrown again at once. *)
Definition rethrown (error : Thrown) : bool :=
  match error with
  | ThrowSendly e =>
      (statusCode_is e 401 || statusCode_is e 403) ||
      (statusCode_is e 400 || statusCode_is e 404) ||
      statusCode_is e 402 ||
      isRateLimitError e
  | _ => false
  end.

(** What a request does to the outside: calls of the transport and sleeps. *)
Inductive Effect : Type :=
| Fetch (attempt : nat)
| Sleep (ms : Q).

(** The outside of a request: how the [n]-th [fetch] call of the request
    settles, and what [Math.random()] returns in the [n]-th back-off. *)
Record Env : Type := mkEnv {
  fetch : nat -> FetchOutcome;
  random : nat -> Q
}.

Record Run : Type := mkRun {
  result : Result Js.value;
  client : HttpClient;
  effects : list Effect
}.

(** The [for] loop of [request]. [iterations] counts the iterations the loop
    condition [attempt <= maxRetries] still admits. *)
Fixpoint request_loop (env : Env) (iterations attempt : nat) (c : HttpClient)
  (lastError : option Thrown) (done : list Effect) : Run :=
  match iterations with
  | O =>
      {| result :=
           inl match lastError with
               | Some e => e
               | None => ThrowSendly (NetworkError "Request failed after retries" None)
               end;
         client := c;
         effects := done |}
  | S iterations' =>
      let '(r, c1) := attempt_once c (fetch env attempt) in
      let done1 := (done ++ [Fetch attempt])%list in
      match r with
      | inr data => {| result := inr data; client := c1; effects := done1 |}
      | inl error =>
          if rethrown error then
            {| result := inl error; client := c1; effects := done1 |}
          else if (Z.of_nat attempt <? maxRetries (config c))%Z then
            let backoffTime := calculateBackoff (random env attempt) attempt in
            request_loop env iterations' (S attempt) c1 (Some error)
              (done1 ++ [Sleep backoffTime])%list
          else
            request_loop env iterations' (S attempt) c1 (Some error) done1
      end
  end.

(** [request(options)], from the loop on. The URL and the headers are built
    before the loop and reach only the transport, which is given here by its
    outcomes. Attempts [0 .. maxRetries] are [maxRetries + 1] iterations, and
    none when [maxRetries] is negative. *)
Definition request (env : Env) (c : HttpClient) : Run :=
  request_loop env (Z.to_nat (maxRetries (config c) + 1)) 0 c None [].



(** ** src/client.ts *)

Definition DEFAULT_BASE_URL2 : string := "https://sendly.live/api".
Definition DEFAULT_TIMEOUT2 : Z := 30000.
Definition DEFAULT_MAX_RETRIES2 : Z := 3.

(** The argument of [new Sendly(...)]: an API key or a configuration object. *)
Inductive SendlyArg : Type :=
| ApiKeyString (key : string)
| ConfigObject (c : SendlyConfig).

Record Sendly : Type := mkSendly {
  sendly_config : Config;
  http : HttpClient
}.

(** The configuration [new Sendly(...)] stores. *)
Definition Sendly_resolve (a : SendlyArg) : Config :=
  match a with
  | ApiKeyString key =>
      {| apiKey := key;
         baseUrl := DEFAULT_BASE_URL2;
         timeout := DEFAULT_TIMEOUT2;
         maxRetries := DEFAULT_MAX_RETRIES2 |}
  | ConfigObject c =>
      {| apiKey := cfg_apiKey c;
         baseUrl := or_string (cfg_baseUrl c) DEFAULT_BASE_URL2;
         timeout := or_number (cfg_timeout c) DEFAULT_TIMEOUT2;
         maxRetries := nullish_number (cfg_maxRetries c) DEFAULT_MAX_RETRIES2 |}
  end.

Section Client.

Context {P : Platform}.

(** [new Sendly(configOrApiKey)]: the resolved configuration is handed, field
    by field, to [new HttpClient(...)], which resolves it once more. *)
Definition Sendly_new (a : SendlyArg) : Result Sendly :=
  let config := Sendly_resolve a in
  match HttpClient_new {| cfg_apiKey := apiKey config;
                          cfg_baseUrl := Some (baseUrl config);
                          cfg_timeout := Some (timeout config);
                          cfg_maxRetries := Some (maxRetries config) |} with
  | inl e => inl e
  | inr h => inr {| sendly_config := config; http := h |}
  end.

End Client.

(** ** src/utils/webhooks.ts *)

(** [crypto.timingSafeEqual(a, b)] on the bytes of two strings: it throws a
    [RangeError] when the lengths differ and compares otherwise. *)
Definition timingSafeEqual (a b : string) : Result bool :=
  if (String.length a =? String.length b)%nat then inr (a =? b)
  else inl (ThrowRangeError "Input buffers must have the same byte length").

(** [!s] on an argument that may be absent. *)
Definition missing (s : option string) : bool :=
  match s with
  | Some v => v =? ""
  | None => true
  end.

Section Webhooks.

Context {P : Platform}.

(** [generateWebhookSignature(payload, secret)]. *)
Definition generateWebhookSignature (payload secret : string) : string :=
  "sha256=" ++ hmac_sha256_hex secret payload.

(** [verifyWebhookSignature(payload, signature, secret)]. The result type
    keeps the possibility of a throw: the comparison is inside a [try] whose
    [catch] returns [false]. *)
Definition verifyWebhookSignature (payload signature secret : option string)
  : Result bool :=
  if missing payload || missing signature || missing secret then inr false
  else
    let expectedSignature :=
      generateWebhookSignature (text_of payload) (text_of secret) in
    match timingSafeEqual (text_of signature) expectedSignature with
    | inr b => inr b
    | inl _ => inr false
    end.

(** [!event.id || !event.type || !event.createdAt] on a parsed event that
    is not [null]. *)
Definition lacks_field (event : Js.value) : bool :=
  negb (Js.truthy_opt (Js.get_opt event "id")) ||
  negb (Js.truthy_opt (Js.get_opt event "type")) ||
  negb (Js.truthy_opt (Js.get_opt event "createdAt")).

(** [parseWebhookEvent(payload, signature, secret)]. Reading [event.id] of
    the value [null] throws a [TypeError]. *)
Definition parseWebhookEvent (payload signature secret : option string)
  : Result Js.value :=
  match verifyWebhookSignature payload signature secret with
  | inl e => inl e
  | inr false => inl (ThrowWebhookSignatureError "Invalid webhook signature")
  | inr true =>
      match JSON_parse (text_of payload) with
      | None => inl (ThrowError "Failed to parse webhook payload")
      | Some Js.Null =>
          inl (ThrowTypeError "Cannot read properties of null (reading 'id')")
      | Some event =>
          if lacks_field event
          then inl (ThrowError "Invalid webhook event structure")
          else inr event
      end
  end.

End Webhooks.

(** ** A reference platform

    An executable instance of [Platform], used to evaluate the definitions on
    concrete inputs. The theorems below do not depend on it. *)

Module Reference.

Open Scope Z_scope.

(** *** SHA-256 and HMAC (FIPS 180-4, RFC 2104) on 32-bit words held in [Z] *)

Definition w32 (x : Z) : Z := x mod 2 ^ 32.

Definition rotr (n x : Z) : Z :=
  w32 (Z.lor (Z.shiftr x n) (Z.shiftl x (32 - n))).

Definition ch (x y z : Z) : Z :=
  Z.lxor (Z.land x y) (Z.land (Z.lxor x (2 ^ 32 - 1)) z).

Definition maj (x y z : Z) : Z :=
  Z.lxor (Z.lxor (Z.land x y) (Z.land x z)) (Z.land y z).

Definition bsig0 (x : Z) : Z := Z.lxor (Z.lxor (rotr 2 x) (rotr 13 x)) (rotr 22 x).
Definition bsig1 (x : Z) : Z := Z.lxor (Z.lxor (rotr 6 x) (rotr 11 x)) (rotr 25 x).
Definition ssig0 (x : Z) : Z := Z.lxor (Z.lxor (rotr 7 x) (rotr 18 x)) (Z.shiftr x 3).
Definition ssig1 (x : Z) : Z := Z.lxor (Z.lxor (rotr 17 x) (rotr 19 x)) (Z.shiftr x 10).

(** The largest [r < 2 ^ bits] with [r ^ k <= n], found bit by bit. *)
Fixpoint root (k n acc : Z) (bits : nat) : Z :=
  match bits with
  | O => acc
  | S b =>
      let c := acc + 2 ^ Z.of_nat b in
      if c ^ k <=? n then root k n c b else root k n acc b
  end.

Definition is_prime (n : Z) : bool :=
  forallb (fun d => negb (n mod Z.of_nat d =? 0)) (seq 2 (Z.to_nat n - 2)).

(** The first 64 primes. *)
Definition primes : list Z :=
  filter is_prime (map Z.of_nat (seq 2 310)).

(** The round constants: the fractional parts of the cube roots of the
    primes, 32 bits each. *)
Definition round_constants : list Z :=
  Eval vm_compute in map (fun p => w32 (root 3 (p * 2 ^ 96) 0 36)) primes.

(** The initial hash value: the fractional parts of the square roots of the
    first eight primes. *)
Definition initial_hash : list Z :=
  Eval vm_compute in map (fun p => w32 (root 2 (p * 2 ^ 64) 0 36)) (firstn 8 primes).

Definition bytes_of_string (s : string) : list Z :=
  map (fun c => Z.of_nat (nat_of_ascii c)) (list_ascii_of_string s).

(** A number as [n] big-endian bytes. *)
Fixpoint big_endian (n : nat) (x : Z) : list Z :=
  match n with
  | O => []
  | S n' => ((x / 256 ^ Z.of_nat n') mod 256) :: big_endian n' x
  end.

(** The message followed by the bit 1, zeros up to 56 modulo 64 bytes, and
    its length in bits. *)
Definition pad (msg : list Z) : list Z :=
  let len := Z.of_nat (List.length msg) in
  let zeros := Z.to_nat ((55 - len) mod 64) in
  (msg ++ 128 :: repeat 0 zeros ++ big_endian 8 (8 * len))%list.

(** Big-endian words of a byte list whose length is a multiple of four. *)
Fixpoint words (fuel : nat) (bs : list Z) : list Z :=
  match fuel, bs with
  | S f, a :: b :: c :: d :: r =>
      (((a * 256 + b) * 256 + c) * 256 + d) :: words f r
  | _, _ => []
  end.

(** The message schedule, latest word first: [recent] holds the sixteen
    words before the next one. *)
Fixpoint schedule (n : nat) (recent : list Z) : list Z :=
  match n with
  | O => recent
  | S n' =>
      let w := w32 (ssig1 (nth 1 recent 0) + nth 6 recent 0 +
                    ssig0 (nth 14 recent 0) + nth 15 recent 0) in
      schedule n' (w :: recent)
  end.

Definition round (st : list Z) (kw : Z * Z) : list Z :=
  match st with
  | [a; b; c; d; e; f; g; h] =>
      let t1 := h + bsig1 e + ch e f g + fst kw + snd kw in
      let t2 := bsig0 a + maj a b c in
      [w32 (t1 + t2); a; b; c; w32 (d + t1); e; f; g]
  | _ => st
  end.

Definition compress (h : list Z) (block : list Z) : list Z :=
  let w := rev (schedule 48 (rev block)) in
  let st := fold_left round (combine round_constants w) h in
  map (fun p => w32 (fst p + snd p)) (combine h st).

Fixpoint blocks (fuel : nat) (ws : list Z) : list (list Z) :=
  match fuel, ws with
  | _, [] => []
  | O, _ => []
  | S f, _ => firstn 16 ws :: blocks f (skipn 16 ws)
  end.

Definition sha256 (msg : list Z) : list Z :=
  let bs := pad msg in
  let ws := words (List.length bs) bs in
  let h := fold_left compress (blocks (List.length ws) ws) initial_hash in
  flat_map (big_endian 4) h.

Definition hmac_sha256 (key msg : list Z) : list Z :=
  let k := if 64 <? Z.of_nat (List.length key) then sha256 key else key in
  let k := (k ++ repeat 0 (64 - List.length k))%list in
  let ipad := map (Z.lxor 54) k in
  let opad := map (Z.lxor 92) k in
  sha256 (opad ++ sha256 (ipad ++ msg))%list.

Definition hex_digit (d : Z) : ascii :=
  ascii_of_nat (Z.to_nat (if d <? 10 then 48 + d else 87 + d)).

Fixpoint hex (bs : list Z) : string :=
  match bs with
  | [] => EmptyString
  | b :: r => String (hex_digit (b / 16)) (String (hex_digit (b mod 16)) (hex r))
  end.

Definition hmac_hex (key msg : string) : string :=
  hex (hmac_sha256 (bytes_of_string key) (bytes_of_string msg)).

Close Scope Z_scope.

(** *** URLs

    The part of the WHATWG URL parser the client can meet in a base URL:
    [scheme://host], with an optional user-info, port, path, query and
    fragment, where the scheme is [http] or [https] and the host is a DNS name
    or a dotted-decimal IPv4 address in canonical form. Scheme and host are
    lower-cased. Everything else is rejected. *)

Definition is_host_char (c : ascii) : bool :=
  Js.is_lower c || Js.is_upper c || Js.is_digit c ||
  Ascii.eqb c "-" || Ascii.eqb c "." || Ascii.eqb c "_".

(** [s] up to the first character satisfying [stop], and the rest from it. *)
Fixpoint break (stop : ascii -> bool) (s : string) : string * string :=
  match s with
  | EmptyString => (EmptyString, EmptyString)
  | String c s' =>
      if stop c then (EmptyString, s)
      else let '(a, b) := break stop s' in (String c a, b)
  end.

Fixpoint split_on (sep : ascii) (s : string) : list string :=
  match s with
  | EmptyString => [EmptyString]
  | String c s' =>
      match split_on sep s' with
      | [] => [EmptyString]
      | x :: r => if Ascii.eqb c sep then EmptyString :: x :: r
                  else String c x :: r
      end
  end.

Definition is_number (s : string) : bool :=
  negb (s =? "") && Js.forall_chars Js.is_digit s.

(** A decimal number below 256 written without a leading zero. *)
Definition is_octet (s : string) : bool :=
  is_number s &&
  (Nat.eqb (String.length s) 1 || negb (prefix "0" s)) &&
  (String.length s <=? 3)%nat &&
  (fst (read_digits s 0 0) <=? 255)%Z.

(** A host whose last label is a number is an IPv4 address; only the
    canonical spelling is accepted. A last label starting with a digit could
    be a hexadecimal number and is rejected too. *)
Definition host_ok (h : string) : bool :=
  let labels := split_on "." h in
  let last_label := last labels "" in
  negb (h =? "") && Js.forall_chars is_host_char h &&
  forallb (fun l => negb (l =? "")) labels &&
  match last_label with
  | String c _ =>
      if Js.is_digit c
      then Nat.eqb (List.length labels) 4 && forallb is_octet labels
      else true
  | EmptyString => false
  end.

Definition is_delim (c : ascii) : bool :=
  Ascii.eqb c "/" || Ascii.eqb c "?" || Ascii.eqb c "#" || Ascii.eqb c "\".

Definition parse_url (s : string) : option URL :=
  let '(scheme, rest) := break (Ascii.eqb ":") s in
  let scheme := Js.to_lower scheme in
  if (scheme =? "http") || (scheme =? "https") then
    match Js.strip_prefix "://" rest with
    | None => None
    | Some rest =>
        let '(authority, _) := break is_delim rest in
        let hostport := last (split_on "@" authority) "" in
        match split_on ":" hostport with
        | [h] =>
            if host_ok h
            then Some {| protocol := scheme ++ ":"; hostname := Js.to_lower h |}
            else None
        | [h; port] =>
            if host_ok h && Js.forall_chars Js.is_digit port
            then Some {| protocol := scheme ++ ":"; hostname := Js.to_lower h |}
            else None
        | _ => None
        end
    end
  else None.

(** *** JSON

    [JSON.parse] on texts whose numbers are integers and whose strings have
    no [\u] escape; other texts are rejected. *)

Definition dquote : ascii := "034".
Definition backslash : ascii := "092".

Definition is_json_space (c : ascii) : bool :=
  let n := nat_of_ascii c in
  (n =? 32)%nat || (n =? 9)%nat || (n =? 10)%nat || (n =? 13)%nat.

Fixpoint skip_ws (s : list ascii) : list ascii :=
  match s with
  | c :: s' => if is_json_space c then skip_ws s' else s
  | [] => []
  end.

Definition unescape (c : ascii) : option ascii :=
  if Ascii.eqb c dquote then Some dquote
  else if Ascii.eqb c backslash then Some backslash
  else if Ascii.eqb c "/" then Some "/"%char
  else if Ascii.eqb c "n" then Some "010"%char
  else if Ascii.eqb c "t" then Some "009"%char
  else if Ascii.eqb c "r" then Some "013"%char
  else if Ascii.eqb c "b" then Some "008"%char
  else if Ascii.eqb c "f" then Some "012"%char
  else None.

(** The characters of a string literal after its opening quote. *)
Fixpoint string_body (s : list ascii) : option (string * list ascii) :=
  match s with
  | [] => None
  | c :: s' =>
      if Ascii.eqb c dquote then Some (EmptyString, s')
      else if (nat_of_ascii c <? 32)%nat then None
      else if Ascii.eqb c backslash then
        match s' with
        | e :: s'' =>
            match unescape e, string_body s'' with
            | Some c', Some (r, rest) => Some (String c' r, rest)
            | _, _ => None
            end
        | [] => None
        end
      else
        match string_body s' with
        | Some (r, rest) => Some (String c r, rest)
        | None => None
        end
  end.

Fixpoint digits (s : list ascii) (acc : Z) (count : nat) : Z * nat * list ascii :=
  match s with
  | c :: s' =>
      if Js.is_digit c
      then digits s' (10 * acc + Z.of_nat (nat_of_ascii c - 48)) (S count)
      else (acc, count, s)
  | [] => (acc, count, s)
  end.

(** An integer literal: an optional minus sign, then [0] or a digit sequence
    that does not start with [0], not followed by a fraction or an exponent. *)
Definition number_literal (s : list ascii) : option (Z * list ascii) :=
  let '(negative, s1) :=
    match s with
    | "-"%char :: r => (true, r)
    | _ => (false, s)
    end in
  let '(n, count, rest) := digits s1 0 0 in
  let leading_zero :=
    match s1 with
    | "0"%char :: _ => (1 <? count)%nat
    | _ => false
    end in
  let continued :=
    match rest with
    | c :: _ => Ascii.eqb c "." || Ascii.eqb c "e" || Ascii.eqb c "E"
    | [] => false
    end in
  if (count =? 0)%nat || leading_zero || continued then None
  else Some (if negative then (- n)%Z else n, rest).

Definition literal (word : string) (v : Js.value) (s : list ascii)
  : option (Js.value * list ascii) :=
  let w := list_ascii_of_string word in
  if list_eq_dec ascii_dec (firstn (List.length w) s) w
  then Some (v, skipn (List.length w) s)
  else None.

Fixpoint json_value (fuel : nat) (s : list ascii) : option (Js.value * list ascii) :=
  match fuel with
  | O => None
  | S f =>
      match skip_ws s with
      | [] => None
      | c :: r =>
          if Ascii.eqb c "{" then
            match skip_ws r with
            | "}"%char :: r' => Some (Js.Obj [], r')
            | _ => json_members f r []
            end
          else if Ascii.eqb c "[" then
            match skip_ws r with
            | "]"%char :: r' => Some (Js.Arr [], r')
            | _ => json_elements f r []
            end
          else if Ascii.eqb c dquote then
            match string_body r with
            | Some (str, r') => Some (Js.Str str, r')
            | None => None
            end
          else if Ascii.eqb c "t" then literal "true" (Js.Bool true) (c :: r)
          else if Ascii.eqb c "f" then literal "false" (Js.Bool false) (c :: r)
          else if Ascii.eqb c "n" then literal "null" Js.Null (c :: r)
          else
            match number_literal (c :: r) with
            | Some (n, r') => Some (Js.Num n, r')
            | None => None
            end
      end
  end
with json_members (fuel : nat) (s : list ascii) (acc : Js.object)
  : option (Js.value * list ascii) :=
  match fuel with
  | O => None
  | S f =>
      match skip_ws s with
      | c :: r =>
          if Ascii.eqb c dquote then
            match string_body r with
            | Some (key, r1) =>
                match skip_ws r1 with
                | ":"%char :: r2 =>
                    match json_value f r2 with
                    | Some (v, r3) =>
                        match skip_ws r3 with
                        | ","%char :: r4 => json_members f r4 (Js.set key v acc)
                        | "}"%char :: r4 => Some (Js.Obj (Js.set key v acc), r4)
                        | _ => None
                        end
                    | None => None
                    end
                | _ => None
                end
            | None => None
            end
          else None
      | [] => None
      end
  end
with json_elements (fuel : nat) (s : list ascii) (acc : list Js.value)
  : option (Js.value * list ascii) :=
  match fuel with
  | O => None
  | S f =>
      match json_value f s with
      | Some (v, r) =>
          match skip_ws r with
          | ","%char :: r' => json_elements f r' (acc ++ [v])%list
          | "]"%char :: r' => Some (Js.Arr (acc ++ [v])%list, r')
          | _ => None
          end
      | None => None
      end
  end.

(** A whole text: one value and nothing but white space after it. The fuel
    is twice the length of the text, and one more. *)
Definition parse_json (s : string) : option Js.value :=
  let cs := list_ascii_of_string s in
  match json_value (S (2 * List.length cs)) cs with
  | Some (v, rest) =>
      match skip_ws rest with
      | [] => Some v
      | _ :: _ => None
      end
  | None => None
  end.

#[export] Instance platform : Platform := {|
  URL_parse := parse_url;
  JSON_parse := parse_json;
  hmac_sha256_hex := hmac_hex
|}.

(** A string in double quotes, for writing JSON texts. *)
Definition quoted (s : string) : string :=
  String dquote (s ++ String dquote EmptyString).

End Reference.

(** ** Notions used in the statements *)

(** The code a wire body is classified by. *)
Definition wire_code (data : Js.value) : Js.value :=
  Js.or (Js.get_opt data "error") (Js.Str "internal_error").

(** The non-retryable errors in the words of the specification: a classified
    error whose status is 401, 403, 400, 404 or 402, or a rate-limit error. *)
Definition non_retryable (e : SendlyError) : Prop :=
  (exists st, statusCode_of e = Some st /\ In st [401; 403; 400; 404; 402]%Z)
  \/ isRateLimitError e = true.

(** The effects of [n + 1] failed attempts from attempt [k] on: a sleep
    follows every attempt but the last. *)
Fixpoint exhausted_effects (env : Env) (k n : nat) : list Effect :=
  match n with
  | O => [Fetch k]
  | S n' =>
      Fetch k :: Sleep (calculateBackoff (random env k) k)
        :: exhausted_effects env (S k) n'
  end.


(** ** Mock transports *)

Module Mock.

Definition json_headers : Headers := [("content-type", "application/json")].

(** A response with a JSON body. *)
Definition respond (st : Z) (h : Headers) (body : Js.object) : FetchOutcome :=
  Fulfilled {| status := st;
               headers := (json_headers ++ h)%list;
               json := Some (Js.Obj body);
               text := "" |}.

Definition unauthorized : FetchOutcome :=
  respond 401 [] [("error", Js.Str "unauthorized");
                  ("message", Js.Str "Invalid API key")].

Definition server_error : FetchOutcome :=
  respond 500 [] [("message", Js.Str "Something went wrong")].

Definition rate_limited : FetchOutcome :=
  respond 429 [] [("error", Js.Str "rate_limit_exceeded");
                  ("message", Js.Str "Too many requests");
                  ("retryAfter", Js.Num 45)].

(** A rate-limit body that asks to retry after zero seconds. *)
Definition retry_at_once : Js.object :=
  [("error", Js.Str "rate_limit_exceeded"); ("retryAfter", Js.Num 0)].

Definition rate_headers (l r t : string) : Headers :=
  [("X-RateLimit-Limit", l); ("X-RateLimit-Remaining", r);
   ("X-RateLimit-Reset", t)].

(** Rate-limit headers whose limit has an empty value. *)
Definition empty_limit : Headers := rate_headers "" "42" "60".

Definition success (h : Headers) : FetchOutcome :=
  respond 200 h [("id", Js.Str "msg_1"); ("status", Js.Str "queued")].

Definition always (o : FetchOutcome) : nat -> FetchOutcome := fun _ => o.

(** HTTP 500 on the first two calls and 200 from the third on. *)
Definition fails_twice : nat -> FetchOutcome :=
  fun n =>
    match n with
    | 0%nat | 1%nat => server_error
    | _ => success []
    end.

(** An environment whose [Math.random()] always returns one half. *)
Definition env_of (f : nat -> FetchOutcome) : Env :=
  {| fetch := f; random := fun _ => 1 # 2 |}.

Definition KEY : string := "sk_test_v1_abc".

(** A configuration with a base URL (or none) and nothing else. *)
Definition config_with (url : option string) : SendlyConfig :=
  {| cfg_apiKey := KEY;
     cfg_baseUrl := url;
     cfg_timeout := None;
     cfg_maxRetries := None |}.

(** A configuration that sets the time-out and the retries to zero. *)
Definition zeros : SendlyConfig :=
  {| cfg_apiKey := KEY;
     cfg_baseUrl := None;
     cfg_timeout := Some 0%Z;
     cfg_maxRetries := Some 0%Z |}.

Definition client_with (retries : Z) : HttpClient :=
  {| config := {| apiKey := "sk_test_v1_abc";
                  baseUrl := DEFAULT_BASE_URL;
                  timeout := DEFAULT_TIMEOUT;
                  maxRetries := retries |};
     rateLimitInfo := None |}.

(** A webhook payload with the three required fields, and the secret it is
    signed with. *)
Definition event_text : string :=
  "{" ++ Reference.quoted "id" ++ ":" ++ Reference.quoted "evt_1" ++ ","
      ++ Reference.quoted "type" ++ ":" ++ Reference.quoted "message.delivered" ++ ","
      ++ Reference.quoted "createdAt" ++ ":1700000000}".

Definition event : Js.value :=
  Js.Obj [("id", Js.Str "evt_1"); ("type", Js.Str "message.delivered");
          ("createdAt", Js.Num 1700000000)].

Definition secret : string := "whsec_test".

End Mock.

(** ** More of src/utils/http.ts *)

(** A plain object whose values are strings, as the headers of a request. *)
Definition HeaderObject : Type := list (string * string).

Fixpoint header (k : string) (o : HeaderObject) : option string :=
  match o with
  | [] => None
  | (k', v) :: o' => if k' =? k then Some v else header k o'
  end.

Fixpoint set_header (k v : string) (o : HeaderObject) : HeaderObject :=
  match o with
  | [] => [(k, v)]
  | (k', v') :: o' =>
      if k' =? k then (k, v) :: o' else (k', v') :: set_header k v o'
  end.

(** [{...base, ...extra}]: the entries of [extra] are set one after the
    other. *)
Definition spread_over (base extra : HeaderObject) : HeaderObject :=
  fold_left (fun o kv => set_header (fst kv) (snd kv) o) extra base.

(** [buildHeaders(additionalHeaders)]; spreading [undefined] adds nothing. *)
Definition buildHeaders (c : HttpClient) (additionalHeaders : option HeaderObject)
  : HeaderObject :=
  spread_over
    [("Authorization", "Bearer " ++ apiKey (config c));
     ("Content-Type", "application/json");
     ("Accept", "application/json");
     ("User-Agent", "@sendly/node/1.0.0")]
    match additionalHeaders with
    | Some h => h
    | None => []
    end.

(** The client after the attempts that settle as [outcomes], in order. *)
Definition after_attempts (c : HttpClient) (outcomes : list FetchOutcome)
  : HttpClient :=
  fold_left (fun c o => snd (attempt_once c o)) outcomes c.

(** The headers of the responses among the outcomes of some attempts. *)
Definition response_headers (outcomes : list FetchOutcome) : list Headers :=
  flat_map (fun o => match o with
                     | Fulfilled r => [headers r]
                     | Rejected _ _ => []
                     end) outcomes.

(** ** More of src/utils/webhooks.ts *)

(** An instance of the class [Webhooks]. *)
Record Webhooks : Type := mkWebhooks { secret : string }.

(** [new Webhooks(secret)]. *)
Definition Webhooks_new (s : option string) : Result Webhooks :=
  if missing s then inl (ThrowError "Webhook secret is required")
  else inr {| secret := text_of s |}.

Section WebhooksClass.

Context {P : Platform}.

(** [webhooks.verify(payload, signature)]. *)
Definition Webhooks_verify (w : Webhooks) (payload signature : option string)
  : Result bool :=
  verifyWebhookSignature payload signature (Some (secret w)).

(** [webhooks.parse(payload, signature)]. *)
Definition Webhooks_parse (w : Webhooks) (payload signature : option string)
  : Result Js.value :=
  parseWebhookEvent payload signature (Some (secret w)).

(** [webhooks.sign(payload)]. *)
Definition Webhooks_sign (w : Webhooks) (payload : string) : string :=
  generateWebhookSignature payload (secret w).

End WebhooksClass.

(** ** More of src/client.ts *)

(** [sendly.isTestMode()], [sendly.getRateLimitInfo()], [sendly.getBaseUrl()]. *)
Definition Sendly_isTestMode (s : Sendly) : bool := isTestMode (http s).

Definition Sendly_getRateLimitInfo (s : Sendly) : option RateLimitInfo :=
  getRateLimitInfo (http s).

Definition Sendly_getBaseUrl (s : Sendly) : string := baseUrl (sendly_config s).

(** The fields of an error that every class has. [message_of] is the message
    the constructor is given, which is the [message] property of the error
    whenever it is a string. *)
Definition message_of (e : SendlyError) : Js.value :=
  match e with
  | BaseSendlyError m _ _ _ | AuthenticationError m _ _ _
  | RateLimitError m _ _ _ | InsufficientCreditsError m _ _ _ _
  | ValidationError m _ _ _ | NotFoundError m _ _ => m
  | NetworkError m _ | TimeoutError m => Js.Str m
  end.

Definition response_of (e : SendlyError) : option Js.object :=
  match e with
  | BaseSendlyError _ _ _ r | AuthenticationError _ _ _ r
  | RateLimitError _ _ _ r | InsufficientCreditsError _ _ _ _ r
  | ValidationError _ _ _ r | NotFoundError _ _ r => r
  | NetworkError _ _ | TimeoutError _ => None
  end.

(** ** src/types.ts *)

Definition SUPPORTED_COUNTRIES_domestic : list string := ["US"; "CA"].

Definition SUPPORTED_COUNTRIES_tier1 : list string :=
  ["GB"; "PL"; "PT"; "RO"; "CZ"; "HU"; "CN"; "KR"; "IN"; "PH"; "TH"; "VN"].

Definition SUPPORTED_COUNTRIES_tier2 : list string :=
  ["FR"; "ES"; "SE"; "NO"; "DK"; "FI"; "IE"; "JP"; "AU"; "NZ"; "SG"; "HK";
   "MY"; "ID"; "BR"; "AR"; "CL"; "CO"; "ZA"; "GR"].

Definition SUPPORTED_COUNTRIES_tier3 : list string :=
  ["DE"; "IT"; "NL"; "BE"; "AT"; "CH"; "MX"; "IL"; "AE"; "SA"; "EG"; "NG";
   "KE"; "TW"; "PK"; "TR"].

(** [Object.values(SUPPORTED_COUNTRIES).flat()]. *)
Definition ALL_SUPPORTED_COUNTRIES : list string :=
  (SUPPORTED_COUNTRIES_domestic ++ SUPPORTED_COUNTRIES_tier1 ++
   SUPPORTED_COUNTRIES_tier2 ++ SUPPORTED_COUNTRIES_tier3)%list.

(** ** src/utils/validation.ts *)

(** [s.length]: the number of UTF-16 code units of the string whose UTF-8
    bytes are [s]. A byte below 128 or a lead byte of a two- or three-byte
    sequence counts one, the lead byte of a four-byte sequence two, and a
    continuation byte none. *)
Fixpoint utf16_length (s : string) : nat :=
  match s with
  | EmptyString => 0
  | String c s' =>
      let n := nat_of_ascii c in
      ((if (n <? 128)%nat then 1
        else if (n <? 192)%nat then 0
        else if (n <? 240)%nat then 1
        else 2) + utf16_length s')%nat
  end.

(** [new ValidationError(message)]: the code defaults to [invalid_request],
    and there is neither a status nor a response. *)
Definition validation_error (message : string) : Thrown :=
  ThrowSendly (ValidationError (Js.Str message) (Js.Str "invalid_request") None None).

(** [/^\+[1-9]\d{1,14}$/.test(phone)]. *)
Definition is_e164 (phone : string) : bool :=
  match phone with
  | String "+" (String d rest) =>
      Js.in_range 49 57 d && Js.forall_chars Js.is_digit rest &&
      (1 <=? String.length rest)%nat && (String.length rest <=? 14)%nat
  | _ => false
  end.

(** [validatePhoneNumber(phone)]. *)
Definition validatePhoneNumber (phone : string) : Result unit :=
  if phone =? "" then inl (validation_error "Phone number is required")
  else if negb (is_e164 phone) then
    inl (validation_error
           ("Invalid phone number format: " ++ phone ++
            ". Expected E.164 format (e.g., +15551234567)"))
  else inr tt.

(** [Math.ceil(a / b)] on natural numbers, for a positive [b]. *)
Definition ceil_div (a b : nat) : nat := ((a + b - 1) / b)%nat.

(** [validateMessageText(text)] for a string: the result, and what it
    writes with [console.warn]. The test of [typeof text] can only fail for a
    value that is not a string. *)
Definition validateMessageText (text : string) : Result unit * list string :=
  if text =? "" then (inl (validation_error "Message text is required"), [])
  else if (1600 <? utf16_length text)%nat then
    (inr tt,
     ["Message is " ++ Js.string_of_nat (utf16_length text) ++
      " characters. This will be split into " ++
      Js.string_of_nat (ceil_div (utf16_length text) 160) ++ " segments."])
  else (inr tt, []).

Definition is_alnum (c : ascii) : bool :=
  Js.is_lower c || Js.is_upper c || Js.is_digit c.

(** [/^[a-zA-Z0-9]{2,11}$/.test(from)]. *)
Definition is_alphanumeric_sender (from : string) : bool :=
  Js.forall_chars is_alnum from &&
  (2 <=? String.length from)%nat && (String.length from <=? 11)%nat.

(** [validateSenderId(from)]. *)
Definition validateSenderId (from : option string) : Result unit :=
  if missing from then inr tt
  else
    let f := text_of from in
    if prefix "+" f then validatePhoneNumber f
    else if negb (is_alphanumeric_sender f) then
      inl (validation_error
             ("Invalid sender ID: " ++ f ++
              ". Must be 2-11 alphanumeric characters or a valid phone number."))
    else inr tt.

(** [Number.isInteger(q)] for a number that is finite. *)
Definition isInteger (q : Q) : bool :=
  (Qnum q mod Zpos (Qden q) =? 0)%Z.

(** [validateLimit(limit)] for a number or [undefined]. *)
Definition validateLimit (limit : option Q) : Result unit :=
  match limit with
  | None => inr tt
  | Some l =>
      if negb (isInteger l) then inl (validation_error "Limit must be an integer")
      else if negb (Qle_bool 1 l) || negb (Qle_bool l 100) then
        inl (validation_error "Limit must be between 1 and 100")
      else inr tt
  end.

Definition is_hex (c : ascii) : bool :=
  Js.is_digit c || Js.in_range 97 102 c || Js.in_range 65 70 c.

(** The characters of a UUID from position [i] on: hyphens at positions 8,
    13, 18 and 23, hexadecimal digits elsewhere, 36 characters in all. *)
Fixpoint uuid_from (i : nat) (s : string) : bool :=
  match s with
  | EmptyString => (i =? 36)%nat
  | String c s' =>
      (if (i =? 8)%nat || (i =? 13)%nat || (i =? 18)%nat || (i =? 23)%nat
       then Ascii.eqb c "-" else is_hex c)
      && uuid_from (S i) s'
  end.

(** [/^(msg|schd|batch)_[a-zA-Z0-9]+$/.test(id)]. *)
Definition is_prefixed_id (id : string) : bool :=
  match Js.strip_prefix "msg_" id, Js.strip_prefix "schd_" id,
        Js.strip_prefix "batch_" id with
  | Some rest, _, _ | None, Some rest, _ | None, None, Some rest =>
      negb (rest =? "") && Js.forall_chars is_alnum rest
  | None, None, None => false
  end.

(** [validateMessageId(id)] for a string. *)
Definition validateMessageId (id : string) : Result unit :=
  if id =? "" then inl (validation_error "Message ID is required")
  else if negb (uuid_from 0 id) && negb (is_prefixed_id id) then
    inl (validation_error ("Invalid message ID format: " ++ id))
  else inr tt.

(** The table [countryPrefixes] as it is written. *)
Definition countryPrefixes : list (string * string) :=
  [("44", "GB"); ("48", "PL"); ("351", "PT"); ("40", "RO"); ("420", "CZ");
   ("36", "HU"); ("86", "CN"); ("82", "KR"); ("91", "IN"); ("63", "PH");
   ("66", "TH"); ("84", "VN"); ("33", "FR"); ("34", "ES"); ("46", "SE");
   ("47", "NO"); ("45", "DK"); ("358", "FI"); ("353", "IE"); ("81", "JP");
   ("61", "AU"); ("64", "NZ"); ("65", "SG"); ("852", "HK"); ("60", "MY");
   ("62", "ID"); ("55", "BR"); ("54", "AR"); ("56", "CL"); ("57", "CO");
   ("27", "ZA"); ("30", "GR"); ("49", "DE"); ("39", "IT"); ("31", "NL");
   ("32", "BE"); ("43", "AT"); ("41", "CH"); ("52", "MX"); ("972", "IL");
   ("971", "AE"); ("966", "SA"); ("20", "EG"); ("234", "NG"); ("254", "KE");
   ("886", "TW"); ("92", "PK"); ("90", "TR")].

Fixpoint lookup_prefix (k : string) (t : list (string * string)) : option string :=
  match t with
  | [] => None
  | (k', v) :: t' => if k' =? k then Some v else lookup_prefix k t'
  end.

(** Insertion into a list sorted by [before]; an element goes in front of
    the first one it is allowed to precede, which keeps the sort stable. *)
Fixpoint insert_by (before : string -> string -> bool) (x : string)
  (l : list string) : list string :=
  match l with
  | [] => [x]
  | y :: l' => if before x y then x :: l else y :: insert_by before x l'
  end.

Definition sort_by (before : string -> string -> bool) (l : list string)
  : list string :=
  fold_right (insert_by before) [] l.

Definition number_of (s : string) : Z := fst (read_digits s 0 0).

(** [Object.keys(countryPrefixes)]: the keys are all integer indices, which
    an object lists in ascending numeric order. *)
Definition countryPrefix_keys : list string :=
  sort_by (fun a b => (number_of a <=? number_of b)%Z) (map fst countryPrefixes).

(** [Object.keys(countryPrefixes).sort((a, b) => b.length - a.length)]: a
    stable sort, longest first. *)
Definition sortedPrefixes : list string :=
  sort_by (fun a b => (String.length b <=? String.length a)%nat) countryPrefix_keys.

(** [phone.replace(/^\+/, "")]. *)
Definition strip_plus (phone : string) : string :=
  match phone with
  | String "+" rest => rest
  | _ => phone
  end.

(** [getCountryFromPhone(phone)]; [None] is [null]. *)
Definition getCountryFromPhone (phone : string) : option string :=
  let digits := strip_plus phone in
  if prefix "1" digits && (utf16_length digits =? 11)%nat then Some "US"
  else
    match find (fun p => prefix p digits) sortedPrefixes with
    | Some p => lookup_prefix p countryPrefixes
    | None => None
    end.

(** [isCountrySupported(countryCode)], given [String.prototype.toUpperCase]. *)
Definition isCountrySupported (toUpperCase : string -> string)
  (countryCode : string) : bool :=
  existsb (String.eqb (toUpperCase countryCode)) ALL_SUPPORTED_COUNTRIES.

(** [/[^\x00-\x7F]/.test(text)]: a string has a code unit above 127 exactly
    when its UTF-8 encoding has a byte above 127. *)
Definition isUnicode (text : string) : bool :=
  negb (Js.forall_chars (fun c => (nat_of_ascii c <? 128)%nat) text).

(** [calculateSegments(text)]. *)
Definition calculateSegments (text : string) : nat :=
  let singleLimit := if isUnicode text then 70%nat else 160%nat in
  let multiLimit := if isUnicode text then 67%nat else 153%nat in
  if (utf16_length text <=? singleLimit)%nat then 1%nat
  else ceil_div (utf16_length text) multiLimit.

(** [String.prototype.toUpperCase] on ASCII letters; other characters are
    left as they are. *)
Definition to_upper_ascii (s : string) : string :=
  string_of_list_ascii
    (map (fun c => if Js.is_lower c then ascii_of_nat (nat_of_ascii c - 32) else c)
       (list_ascii_of_string s)).

(** ** src/resources/messages.ts *)

(** [encodeURIComponent(s)] on the UTF-8 bytes of a well-formed string: the
    unreserved characters stand for themselves, every other byte is written
    as a percent sign and two upper-case hexadecimal digits. *)
Definition is_unreserved (c : ascii) : bool :=
  is_alnum c ||
  existsb (Ascii.eqb c) (list_ascii_of_string "-_.!~*'()").

Definition upper_hex_digit (d : nat) : ascii :=
  ascii_of_nat (if (d <? 10)%nat then 48 + d else 55 + d).

Fixpoint encodeURIComponent (s : string) : string :=
  match s with
  | EmptyString => EmptyString
  | String c s' =>
      if is_unreserved c then String c (encodeURIComponent s')
      else
        String "%"
          (String (upper_hex_digit (nat_of_ascii c / 16))
             (String (upper_hex_digit (nat_of_ascii c mod 16))
                (encodeURIComponent s')))
  end.

(** A value of a query parameter. *)
Inductive QueryValue : Type :=
| QNumber (q : Q)
| QString (s : string).

(** The argument of [http.request]. *)
Record RequestOptions : Type := mkRequestOptions {
  method : string;
  path : string;
  query : list (string * option QueryValue);
  body : option Js.object
}.

(** The far end: how the transport settles, and what [Math.random()]
    returns, during the request made with given options. *)
Definition Server : Type := RequestOptions -> Env.

(** What a method of the resource does: the run of its request, if it makes
    one, and the warnings it writes. *)
Record Call : Type := mkCall {
  run : Run;
  warnings : list string
}.

(** A method that throws before it makes a request. *)
Definition stop (c : HttpClient) (e : Thrown) (w : list string) : Call :=
  {| run := {| result := inl e; client := c; effects := [] |}; warnings := w |}.

(** [await this.http.request(options)]. *)
Definition http_request (server : Server) (c : HttpClient) (o : RequestOptions)
  (w : list string) : Call :=
  {| run := request (server o) c; warnings := w |}.

Record SendMessageRequest : Type := mkSendMessageRequest {
  msg_to : string;
  msg_text : string;
  msg_from : option string
}.

(** [...request.from && { from: request.from }]. *)
Definition from_entry (from : option string) : Js.object :=
  if missing from then [] else [("from", Js.Str (text_of from))].

Definition send_options (r : SendMessageRequest) : RequestOptions :=
  {| method := "POST";
     path := "/v1/messages";
     query := [];
     body := Some ([("to", Js.Str (msg_to r)); ("text", Js.Str (msg_text r))]
                   ++ from_entry (msg_from r))%list |}.

(** [messages.send(request)]. *)
Definition Messages_send (server : Server) (c : HttpClient)
  (r : SendMessageRequest) : Call :=
  match validatePhoneNumber (msg_to r) with
  | inl e => stop c e []
  | inr _ =>
      let '(checked, w) := validateMessageText (msg_text r) in
      match checked with
      | inl e => stop c e w
      | inr _ =>
          match (if missing (msg_from r) then inr tt
                 else validateSenderId (msg_from r)) with
          | inl e => stop c e w
          | inr _ => http_request server c (send_options r) w
          end
      end
  end.

Record ListOptions : Type := mkListOptions {
  opt_limit : option Q;
  opt_offset : option Q;
  opt_status : option string
}.

Definition list_options (p : string) (o : ListOptions) : RequestOptions :=
  {| method := "GET";
     path := p;
     query := [("limit", option_map QNumber (opt_limit o));
               ("offset", option_map QNumber (opt_offset o));
               ("status", option_map QString (opt_status o))];
     body := None |}.

Definition listing (p : string) (server : Server) (c : HttpClient)
  (o : ListOptions) : Call :=
  match validateLimit (opt_limit o) with
  | inl e => stop c e []
  | inr _ => http_request server c (list_options p o) []
  end.

(** [messages.list(options)], [messages.listScheduled(options)] and
    [messages.listBatches(options)]. *)
Definition Messages_list : Server -> HttpClient -> ListOptions -> Call :=
  listing "/v1/messages".

Definition Messages_listScheduled : Server -> HttpClient -> ListOptions -> Call :=
  listing "/v1/messages/scheduled".

Definition Messages_listBatches : Server -> HttpClient -> ListOptions -> Call :=
  listing "/v1/messages/batches".

Definition by_id (m p : string) (server : Server) (c : HttpClient) (id : string)
  : Call :=
  match validateMessageId id with
  | inl e => stop c e []
  | inr _ =>
      http_request server c
        {| method := m; path := p ++ encodeURIComponent id;
           query := []; body := None |} []
  end.

(** [messages.get(id)], [messages.getScheduled(id)] and
    [messages.cancelScheduled(id)]. *)
Definition Messages_get : Server -> HttpClient -> string -> Call :=
  by_id "GET" "/v1/messages/".

Definition Messages_getScheduled : Server -> HttpClient -> string -> Call :=
  by_id "GET" "/v1/messages/scheduled/".

Definition Messages_cancelScheduled : Server -> HttpClient -> string -> Call :=
  by_id "DELETE" "/v1/messages/scheduled/".

(** [messages.getBatch(batchId)]. *)
Definition Messages_getBatch (server : Server) (c : HttpClient) (batchId : string)
  : Call :=
  if (batchId =? "") || negb (prefix "batch_" batchId) then
    stop c (ThrowError "Invalid batch ID format") []
  else
    http_request server c
      {| method := "GET";
         path := "/v1/messages/batch/" ++ encodeURIComponent batchId;
         query := []; body := None |} [].

Record BatchMessage : Type := mkBatchMessage {
  item_to : string;
  item_text : string
}.

Record BatchMessageRequest : Type := mkBatchMessageRequest {
  batch_messages : list BatchMessage;
  batch_from : option string
}.

(** The loop over the messages of a batch: the first error stops it; the
    warnings add up. *)
Fixpoint validate_items (items : list BatchMessage) (w : list string)
  : Result unit * list string :=
  match items with
  | [] => (inr tt, w)
  | m :: items' =>
      match validatePhoneNumber (item_to m) with
      | inl e => (inl e, w)
      | inr _ =>
          let '(checked, w') := validateMessageText (item_text m) in
          match checked with
          | inl e => (inl e, (w ++ w')%list)
          | inr _ => validate_items items' (w ++ w')%list
          end
      end
  end.

Definition batch_options (r : BatchMessageRequest) : RequestOptions :=
  {| method := "POST";
     path := "/v1/messages/batch";
     query := [];
     body :=
       Some ([("messages",
               Js.Arr (map (fun m => Js.Obj [("to", Js.Str (item_to m));
                                             ("text", Js.Str (item_text m))])
                         (batch_messages r)))]
             ++ from_entry (batch_from r))%list |}.

(** [messages.sendBatch(request)] for a request whose [messages] is an
    array. *)
Definition Messages_sendBatch (server : Server) (c : HttpClient)
  (r : BatchMessageRequest) : Call :=
  if (List.length (batch_messages r) =? 0)%nat then
    stop c (ThrowError "messages must be a non-empty array") []
  else if (1000 <? List.length (batch_messages r))%nat then
    stop c (ThrowError "Maximum 1000 messages per batch") []
  else
    let '(checked, w) := validate_items (batch_messages r) [] in
    match checked with
    | inl e => stop c e w
    | inr _ =>
        match (if missing (batch_from r) then inr tt
               else validateSenderId (batch_from r)) with
        | inl e => stop c e w
        | inr _ => http_request server c (batch_options r) w
        end
    end.

(** The characters a [for ... of] loop over a string yields: its code
    points. Read from the end: the continuation bytes collected so far, and
    the code points after them. *)
Fixpoint code_point_groups (s : string) : string * list string :=
  match s with
  | EmptyString => (EmptyString, [])
  | String c s' =>
      let '(pending, groups) := code_point_groups s' in
      let n := nat_of_ascii c in
      if (128 <=? n)%nat && (n <? 192)%nat then (String c pending, groups)
      else (EmptyString, String c pending :: groups)
  end.

Definition code_points (s : string) : list string := snd (code_point_groups s).

(** [response.data] as the loop of [listAll] uses it: the items a
    [for ... of] yields and [response.data.length]. Reading [data] of [null]
    throws, and so does iterating anything but an array or a string. *)
Definition page_of (response : Js.value) : Result (list Js.value * nat) :=
  match response with
  | Js.Null =>
      inl (ThrowTypeError "Cannot read properties of null (reading 'data')")
  | _ =>
      match Js.get_opt response "data" with
      | Some (Js.Arr items) => inr (items, List.length items)
      | Some (Js.Str s) => inr (map Js.Str (code_points s), utf16_length s)
      | _ => inl (ThrowTypeError "response.data is not iterable")
      end
  end.

(** [Math.min(options.limit || 100, 100)]. *)
Definition batchSize_of (limit : option Q) : Q :=
  Qmin match limit with
       | Some l => if Qeq_bool l 0 then 100 else l
       | None => 100
       end 100.

Definition page_options (batchSize offset : Q) : RequestOptions :=
  {| method := "GET";
     path := "/v1/messages";
     query := [("limit", Some (QNumber batchSize));
               ("offset", Some (QNumber offset))];
     body := None |}.

(** How an iteration over [listAll] ends when it is carried on as long as
    the generator yields: the generator returns, or throws, or is still
    asking for pages when the fuel of the model is spent. *)
Inductive Ending : Type :=
| Finished
| Threw (e : Thrown)
| Unfinished.

Record Listing : Type := mkListing {
  yielded : list Js.value;
  requests : list RequestOptions;
  ending : Ending;
  after : HttpClient
}.

(** The [while (hasMore)] loop of [listAll]; [fuel] bounds the pages asked
    for. *)
Fixpoint listAll_loop (server : Server) (fuel : nat) (c : HttpClient)
  (batchSize offset : Q) : Listing :=
  match fuel with
  | O => {| yielded := []; requests := []; ending := Unfinished; after := c |}
  | S fuel' =>
      let o := page_options batchSize offset in
      let r := request (server o) c in
      match result r with
      | inl e =>
          {| yielded := []; requests := [o]; ending := Threw e; after := client r |}
      | inr response =>
          match page_of response with
          | inl e =>
              {| yielded := []; requests := [o]; ending := Threw e;
                 after := client r |}
          | inr (items, len) =>
              if negb (Qle_bool batchSize (inject_Z (Z.of_nat len))) then
                {| yielded := items; requests := [o]; ending := Finished;
                   after := client r |}
              else
                let rest :=
                  listAll_loop server fuel' (client r) batchSize
                    (offset + batchSize) in
                {| yielded := (items ++ yielded rest)%list;
                   requests := o :: requests rest;
                   ending := ending rest;
                   after := after rest |}
          end
      end
  end.

(** [messages.listAll(options)], iterated to its end. *)
Definition Messages_listAll (server : Server) (c : HttpClient)
  (limit : option Q) (fuel : nat) : Listing :=
  listAll_loop server fuel c (batchSize_of limit) 0.

(** The offset of page [i]: [batchSize] added [i] times to zero. *)
Fixpoint page_offset (batchSize : Q) (i : nat) : Q :=
  match i with
  | O => 0
  | S i' => page_offset batchSize i' + batchSize
  end.

(** ** More mocks *)

Module Sample.

(** A server that ignores the request. *)
Definition server_of (f : nat -> FetchOutcome) : Server :=
  fun _ => Mock.env_of f.

(** A server that holds [total] messages and answers a page request with
    the messages from [offset] on, [limit] at most. *)
Definition message (i : nat) : Js.value :=
  Js.Obj [("id", Js.Str ("msg_" ++ Js.string_of_nat i))].

Definition number_of_query (name : string) (o : RequestOptions) : nat :=
  match find (fun kv => fst kv =? name) (query o) with
  | Some (_, Some (QNumber q)) => Z.to_nat (Qnum q / Zpos (Qden q))
  | _ => 0%nat
  end.

Definition paged (total : nat) : Server :=
  fun o =>
    let offset := number_of_query "offset" o in
    let limit := number_of_query "limit" o in
    Mock.env_of
      (Mock.always
         (Mock.respond 200 []
            [("data",
              Js.Arr (map message
                        (seq offset (Nat.min limit (total - offset)))))])).

Definition hello : SendMessageRequest :=
  {| msg_to := "+15551234567"; msg_text := "Hello"; msg_from := Some "Sendly" |}.

End Sample.

(** ** Notions used in the statements about messages *)

(** A sender the resource lets through: none, an E.164 number, or two to
    eleven letters and digits. *)
Definition valid_sender (from : option string) : bool :=
  missing from ||
  (if prefix "+" (text_of from) then is_e164 (text_of from)
   else is_alphanumeric_sender (text_of from)).

Definition valid_item (m : BatchMessage) : bool :=
  is_e164 (item_to m) && negb (item_text m =? "").

(** A validation error: the class [ValidationError] with the code
    [invalid_request], no status and no response. *)
Definition is_validation_error (e : Thrown) : Prop :=
  exists message, e = validation_error message.

(** A call that threw [e] before any request. *)
Definition stopped_with (k : Call) (c : HttpClient) (e : Thrown) : Prop :=
  run k = {| result := inl e; client := c; effects := [] |}.

(** A character of a path segment that would change the route or the query. *)
Definition is_separator (c : ascii) : bool :=
  existsb (Ascii.eqb c) (list_ascii_of_string "/?#&=\ ").

(** ** messages.schedule *)

Record ScheduleMessageRequest : Type := mkScheduleMessageRequest {
  sch_to : string;
  sch_text : string;
  sch_scheduledAt : string;
  sch_from : option string
}.

(** The time value of [new Date(t)] for a number [t]: [t] itself within
    8.64e15 milliseconds of the epoch, [NaN] (here [None]) outside. *)
Definition time_clip (t : Z) : option Z :=
  if (Z.abs t <=? 8640000000000000)%Z then Some t else None.

(** [a <= b] on two dates: false as soon as one of them is invalid. *)
Definition date_le (a b : option Z) : bool :=
  match a, b with
  | Some x, Some y => (x <=? y)%Z
  | _, _ => false
  end.

Definition schedule_options (r : ScheduleMessageRequest) : RequestOptions :=
  {| method := "POST";
     path := "/v1/messages/schedule";
     query := [];
     body := Some ([("to", Js.Str (sch_to r)); ("text", Js.Str (sch_text r));
                    ("scheduledAt", Js.Str (sch_scheduledAt r))]
                   ++ from_entry (sch_from r))%list |}.

Section Schedule.

(** [new Date(s).getTime()] for a string [s], [None] when it is [NaN]; the
    parser is the platform's. *)
Variable Date_parse : string -> option Z.

(** [messages.schedule(request)], at the time [now] that [new Date()]
    reads. *)
Definition Messages_schedule (server : Server) (c : HttpClient) (now : Z)
  (r : ScheduleMessageRequest) : Call :=
  match validatePhoneNumber (sch_to r) with
  | inl e => stop c e []
  | inr _ =>
      let '(checked, w) := validateMessageText (sch_text r) in
      match checked with
      | inl e => stop c e w
      | inr _ =>
          match (if missing (sch_from r) then inr tt
                 else validateSenderId (sch_from r)) with
          | inl e => stop c e w
          | inr _ =>
              let scheduledTime := Date_parse (sch_scheduledAt r) in
              let oneMinuteFromNow := time_clip (now + 60 * 1000) in
              match scheduledTime with
              | None =>
                  stop c
                    (ThrowError "Invalid scheduledAt format. Use ISO 8601 format.") w
              | Some _ =>
                  if date_le scheduledTime oneMinuteFromNow then
                    stop c
                      (ThrowError
                         "scheduledAt must be at least 1 minute in the future.") w
                  else http_request server c (schedule_options r) w
              end
          end
      end
  end.

End Schedule.

Module Clock.

(** A date parser that knows one date, the first instant of 2030. *)
Definition parse (s : string) : option Z :=
  if s =? "2030-01-01T00:00:00.000Z" then Some 1893456000000%Z else None.

(** The first instant of 2026. *)
Definition now : Z := 1767225600000.

Definition reminder : ScheduleMessageRequest :=
  {| sch_to := "+15551234567"; sch_text := "Hello";
     sch_scheduledAt := "2030-01-01T00:00:00.000Z"; sch_from := None |}.

End Clock.

(** * Properties *)

(** ** Objects and strings *)

Lemma get_set_same (k : string) (v : Js.value) (o : Js.object) :
  Js.get k (Js.set k v o) = Some v.
Proof.
  induction o as [| [k' v'] o IH]; simpl.
  - now rewrite String.eqb_refl.
  - destruct (k' =? k) eqn:E; simpl.
    + now rewrite String.eqb_refl.
    + now rewrite E.
Qed.

Lemma get_set_other (k k' : string) (v : Js.value) (o : Js.object) :
  k <> k' -> Js.get k' (Js.set k v o) = Js.get k' o.
Proof.
  intros Hne. induction o as [| [k0 v0] o IH]; simpl.
  - destruct (k =? k') eqn:E; [apply String.eqb_eq in E; contradiction | reflexivity].
  - destruct (k0 =? k) eqn:E0; simpl.
    + apply String.eqb_eq in E0. subst k0.
      destruct (k =? k') eqn:E; [apply String.eqb_eq in E; contradiction | reflexivity].
    + destruct (k0 =? k'); [reflexivity | exact IH].
Qed.

Lemma strip_prefix_spec (p s r : string) :
  Js.strip_prefix p s = Some r <-> s = p ++ r.
Proof.
  revert s. induction p as [| a p IH]; intros s; simpl.
  - split; [intros [= ->]; reflexivity | intros ->; reflexivity].
  - destruct s as [| b s].
    + split; discriminate.
    + destruct (Ascii.eqb a b) eqn:E.
      * apply Ascii.eqb_eq in E. subst b. rewrite IH.
        split; [intros ->; reflexivity | intros [= ->]; reflexivity].
      * apply Ascii.eqb_neq in E.
        split; [discriminate | intros [= Hab _]; congruence].
Qed.

(** ** Error taxonomy *)

(** The body [fromResponse] receives from [parseResponse] keeps the fields
    of the wire body other than [error] and [message]. *)
Lemma errorBody_get (st : Z) (body : Js.object) (k : string) :
  k <> "error" -> k <> "message" ->
  Js.get k (errorBody st (Js.Obj body)) = Js.get k body.
Proof.
  intros He Hm. unfold errorBody. simpl.
  rewrite get_set_other by congruence.
  rewrite get_set_other by congruence.
  reflexivity.
Qed.

Lemma errorBody_error (st : Z) (data : Js.value) :
  Js.get "error" (errorBody st data)
  = Some (Js.or (Js.get_opt data "error") (Js.Str "internal_error")).
Proof.
  unfold errorBody. rewrite get_set_other by discriminate. apply get_set_same.
Qed.

(** A wire body whose code is [rate_limit_exceeded] becomes a
    [RateLimitError] whose [retryAfter] is [response.retryAfter || 60]. *)
Lemma fromResponse_rate_limit (st : Z) (body : Js.object) :
  Js.get "error" body = Some (Js.Str "rate_limit_exceeded") ->
  fromResponse st body
  = RateLimitError
      (Js.or (Js.get "message" body) (Js.Str "An unknown error occurred"))
      (Js.or (Js.get "retryAfter" body) (Js.Num 60))
      (Some st) (Some body).
Proof.
  intros H. unfold fromResponse. rewrite H. reflexivity.
Qed.

Lemma fromResponse_statusCode (st : Z) (body : Js.object) :
  statusCode_of (fromResponse st body) = Some st.
Proof.
  unfold fromResponse. destruct (code_branch _); reflexivity.
Qed.

Lemma wire_code_truthy (data : Js.value) : Js.truthy (wire_code data) = true.
Proof.
  unfold wire_code, Js.or.
  destruct (Js.get_opt data "error") as [v |]; [| reflexivity].
  destruct (Js.truthy v) eqn:E; [exact E | reflexivity].
Qed.

Lemma code_branch_rate_limit (code : Js.value) :
  code_branch code = BrRateLimit <-> code = Js.Str "rate_limit_exceeded".
Proof.
  split.
  - destruct code as [| b | n | s | l | kvs]; simpl; try discriminate.
    repeat match goal with
           | |- context [if ?b then _ else _] =>
               lazymatch b with
               | s =? "rate_limit_exceeded" => fail
               | _ => destruct b; [discriminate |]
               end
           end.
    destruct (s =? "rate_limit_exceeded") eqn:E.
    + apply String.eqb_eq in E. now subst.
    + repeat match goal with
             | |- context [if ?b then _ else _] => destruct b
             end; discriminate.
  - intros ->. reflexivity.
Qed.

(** Only the code [rate_limit_exceeded] makes a [RateLimitError]. *)
Lemma fromResponse_isRateLimitError (st : Z) (data : Js.value) :
  isRateLimitError (fromResponse st (errorBody st data)) = true
  <-> wire_code data = Js.Str "rate_limit_exceeded".
Proof.
  rewrite <- code_branch_rate_limit.
  unfold fromResponse. rewrite errorBody_error. fold (wire_code data).
  assert (Hc : Js.or (Some (wire_code data)) (Js.Str "internal_error") = wire_code data).
  { unfold Js.or at 1. now rewrite wire_code_truthy. }
  rewrite Hc.
  destruct (code_branch (wire_code data)); simpl; split; congruence.
Qed.

(** ** One attempt *)

Lemma updateRateLimitInfo_config (c : HttpClient) (h : Headers) :
  config (updateRateLimitInfo c h) = config c.
Proof.
  unfold updateRateLimitInfo.
  destruct (present _ && present _ && present _); reflexivity.
Qed.

Lemma attempt_once_config (c : HttpClient) (o : FetchOutcome) :
  config (snd (attempt_once c o)) = config c.
Proof.
  unfold attempt_once. destruct o as [r | name message]; simpl.
  - apply updateRateLimitInfo_config.
  - destruct (name =? "AbortError"); reflexivity.
Qed.

(** The outcome of an attempt depends on the client through its
    configuration only, never through the snapshot. *)
Lemma attempt_once_fst_ext (c c' : HttpClient) (o : FetchOutcome) :
  config c = config c' ->
  fst (attempt_once c o) = fst (attempt_once c' o).
Proof.
  intros H. unfold attempt_once, executeRequest. rewrite H.
  destruct o as [r | name message]; [reflexivity |].
  destruct (name =? "AbortError"); reflexivity.
Qed.

(** An error response whose body can be read is classified, with the
    status of the response. *)
Lemma attempt_once_error_response (c : HttpClient) (r : Response) (data : Js.value) :
  ok r = false -> readBody r = inr data ->
  fst (attempt_once c (Fulfilled r))
  = inl (ThrowSendly (fromResponse (status r) (errorBody (status r) data))).
Proof.
  intros Hok Hd. unfold attempt_once, parseResponse. simpl.
  rewrite Hd, Hok. reflexivity.
Qed.


(** ** The retry loop, one iteration at a time *)

Section Loop.

Variable env : Env.

Lemma loop_returns (n k : nat) (c : HttpClient) (last : option Thrown)
  (done : list Effect) (data : Js.value) :
  fst (attempt_once c (fetch env k)) = inr data ->
  request_loop env (S n) k c last done
  = {| result := inr data;
       client := snd (attempt_once c (fetch env k));
       effects := (done ++ [Fetch k])%list |}.
Proof.
  intros H. cbn [request_loop].
  destruct (attempt_once c (fetch env k)) as [r c1]. simpl in H. subst r.
  reflexivity.
Qed.

Lemma loop_rethrows (n k : nat) (c : HttpClient) (last : option Thrown)
  (done : list Effect) (error : Thrown) :
  fst (attempt_once c (fetch env k)) = inl error ->
  rethrown error = true ->
  request_loop env (S n) k c last done
  = {| result := inl error;
       client := snd (attempt_once c (fetch env k));
       effects := (done ++ [Fetch k])%list |}.
Proof.
  intros H Hr. cbn [request_loop].
  destruct (attempt_once c (fetch env k)) as [r c1]. simpl in H. subst r.
  rewrite Hr. reflexivity.
Qed.

Lemma loop_retries (n k : nat) (c : HttpClient) (last : option Thrown)
  (done : list Effect) (error : Thrown) :
  fst (attempt_once c (fetch env k)) = inl error ->
  rethrown error = false ->
  (Z.of_nat k < maxRetries (config c))%Z ->
  request_loop env (S n) k c last done
  = request_loop env n (S k) (snd (attempt_once c (fetch env k))) (Some error)
      (done ++ [Fetch k; Sleep (calculateBackoff (random env k) k)])%list.
Proof.
  intros H Hr Hlt. cbn [request_loop].
  destruct (attempt_once c (fetch env k)) as [r c1]. simpl in H. subst r.
  rewrite Hr. apply Z.ltb_lt in Hlt. rewrite Hlt.
  rewrite <- app_assoc. reflexivity.
Qed.

Lemma loop_gives_up (n k : nat) (c : HttpClient) (last : option Thrown)
  (done : list Effect) (error : Thrown) :
  fst (attempt_once c (fetch env k)) = inl error ->
  rethrown error = false ->
  (maxRetries (config c) <= Z.of_nat k)%Z ->
  request_loop env (S n) k c last done
  = request_loop env n (S k) (snd (attempt_once c (fetch env k))) (Some error)
      (done ++ [Fetch k])%list.
Proof.
  intros H Hr Hge. cbn [request_loop].
  destruct (attempt_once c (fetch env k)) as [r c1]. simpl in H. subst r.
  rewrite Hr. apply Z.ltb_ge in Hge. rewrite Hge. reflexivity.
Qed.

End Loop.

(** ** Which errors are thrown again, which are retried *)

Lemma statusCode_is_true (e : SendlyError) (st : Z) :
  statusCode_is e st = true <-> statusCode_of e = Some st.
Proof.
  unfold statusCode_is. destruct (statusCode_of e) as [s |].
  - rewrite Z.eqb_eq. split; congruence.
  - split; discriminate.
Qed.

Lemma rethrown_iff (e : SendlyError) :
  rethrown (ThrowSendly e) = true <-> non_retryable e.
Proof.
  unfold rethrown, non_retryable. rewrite !orb_true_iff, !statusCode_is_true.
  split.
  - intros [[[[H | H] | [H | H]] | H] | H];
      try (left; eexists; split; [exact H | simpl; tauto]).
    now right.
  - intros [[st [H Hin]] | H]; [| now right].
    simpl in Hin. left.
    destruct Hin as [<- | [<- | [<- | [<- | [<- | []]]]]]; tauto.
Qed.



(** ** Running out of attempts *)




(** ** Counting attempts *)


Lemma iterations_of (m : Z) :
  (0 <= m)%Z -> Z.to_nat (m + 1) = S (Z.to_nat m).
Proof. intros H. lia. Qed.



(** A non-retryable error ends the loop at whatever attempt it occurs. *)
Lemma loop_rethrows_non_retryable (env : Env) (n k : nat) (c : HttpClient)
  (last : option Thrown) (done : list Effect) (e : SendlyError) :
  fst (attempt_once c (fetch env k)) = inl (ThrowSendly e) ->
  non_retryable e ->
  result (request_loop env (S n) k c last done) = inl (ThrowSendly e) /\
  effects (request_loop env (S n) k c last done) = (done ++ [Fetch k])%list.
Proof.
  intros He Hn. apply rethrown_iff in Hn.
  rewrite (loop_rethrows env n k c last done _ He Hn). split; reflexivity.
Qed.

(** ** C2 *)

(** C2. A classified error whose status is 401, 403, 400, 404 or 402, and a
    rate-limit error of any status, is thrown again by [request] at once: the
    request ends with that error after one call of the transport and no
    sleep. In particular a response with one of these statuses whose body
    can be read ends the request after one attempt. *)
Theorem request_rethrows_non_retryable (env : Env) (c : HttpClient) :
  (0 <= maxRetries (config c))%Z ->
  (forall e : SendlyError,
      fst (attempt_once c (fetch env 0)) = inl (ThrowSendly e) ->
      non_retryable e ->
      result (request env c) = inl (ThrowSendly e) /\
      effects (request env c) = [Fetch 0]) /\
  (forall (r : Response) (data : Js.value),
      fetch env 0 = Fulfilled r ->
      In (status r) [401; 403; 400; 404; 402]%Z ->
      readBody r = inr data ->
      result (request env c)
      = inl (ThrowSendly (fromResponse (status r) (errorBody (status r) data))) /\
      effects (request env c) = [Fetch 0]).
Proof.
  intros Hmax.
  assert (Hfirst : forall e : SendlyError,
             fst (attempt_once c (fetch env 0)) = inl (ThrowSendly e) ->
             non_retryable e ->
             result (request env c) = inl (ThrowSendly e) /\
             effects (request env c) = [Fetch 0]).
  { intros e He Hn. unfold request. rewrite iterations_of by exact Hmax.
    apply (loop_rethrows_non_retryable env _ 0 c None [] e He Hn). }
  split; [exact Hfirst |].
  intros r data Hf Hst Hd. apply Hfirst.
  - rewrite Hf. apply attempt_once_error_response; [| exact Hd].
    unfold ok. simpl in Hst.
    destruct Hst as [<- | [<- | [<- | [<- | [<- | []]]]]]; reflexivity.
  - left. exists (status r). split; [apply fromResponse_statusCode | exact Hst].
Qed.

(** The theorem at a transport that answers 401 to a client with three
    retries: one call, no sleep. *)
Lemma request_rethrows_non_retryable_witness :
  (0 <= maxRetries (config (Mock.client_with 3)))%Z /\
  result (request (Mock.env_of (Mock.always Mock.unauthorized)) (Mock.client_with 3))
  = inl (ThrowSendly
           (AuthenticationError (Js.Str "Invalid API key") (Js.Str "unauthorized")
              (Some 401%Z)
              (Some [("error", Js.Str "unauthorized");
                     ("message", Js.Str "Invalid API key")]))) /\
  effects (request (Mock.env_of (Mock.always Mock.unauthorized)) (Mock.client_with 3))
  = [Fetch 0].
Proof.
  assert (H : (0 <= maxRetries (config (Mock.client_with 3)))%Z) by (simpl; lia).
  split; [exact H |].
  refine (proj2 (request_rethrows_non_retryable
                   (Mock.env_of (Mock.always Mock.unauthorized))
                   (Mock.client_with 3) H)
            _ (Js.Obj [("error", Js.Str "unauthorized");
                       ("message", Js.Str "Invalid API key")]) eq_refl _ eq_refl).
  simpl. tauto.
Defined.

(** ** C3 *)







(** ** C4 *)

Lemma pow2_ge_1 (n : nat) : 1 <= inject_Z (2 ^ Z.of_nat n).
Proof.
  change 1 with (inject_Z 1). rewrite <- Zle_Qle.
  pose proof (Z.pow_pos_nonneg 2 (Z.of_nat n)). lia.
Qed.

Lemma pow2_succ (n : nat) :
  inject_Z (2 ^ Z.of_nat (S n)) == 2 * inject_Z (2 ^ Z.of_nat n).
Proof.
  rewrite Nat2Z.inj_succ, Z.pow_succ_r by lia.
  rewrite inject_Z_mult. reflexivity.
Qed.

(** Below the cap the back-off is the uncapped sum. *)
Lemma calculateBackoff_below_cap (rand : Q) (n : nat) :
  calculateBackoff rand n < 30000 ->
  calculateBackoff rand n == inject_Z (2 ^ Z.of_nat n) * 1000 + rand * 500.
Proof.
  unfold calculateBackoff. cbv zeta.
  destruct (Q.min_spec (inject_Z (2 ^ Z.of_nat n) * 1000 + rand * 500) 30000)
    as [[_ H] | [_ H]]; rewrite H; intros Hlt.
  - reflexivity.
  - exfalso. revert Hlt. apply Qlt_irrefl.
Qed.

(** C4. With a jitter [j] in [[0, 500)], that is [Math.random() * 500] for the
    draw [j / 500] in [[0, 1)], the back-off of attempt [n] is
    [min (2^n * 1000 + j) 30000] milliseconds; and of two consecutive
    back-offs that are both below the cap of 30000 ms the second is strictly
    the greater, whatever the two draws. *)
Theorem calculateBackoff_exponential :
  (forall (n : nat) (rand : Q),
      0 <= rand -> rand < 1 ->
      0 <= rand * 500 /\ rand * 500 < 500 /\
      calculateBackoff rand n
      == Qmin (inject_Z (2 ^ Z.of_nat n) * 1000 + rand * 500) 30000) /\
  (forall (n : nat) (j : Q),
      0 <= j -> j < 500 ->
      0 <= j / 500 /\ j / 500 < 1 /\
      calculateBackoff (j / 500) n
      == Qmin (inject_Z (2 ^ Z.of_nat n) * 1000 + j) 30000) /\
  (forall (n : nat) (rand1 rand2 : Q),
      0 <= rand1 -> rand1 < 1 -> 0 <= rand2 -> rand2 < 1 ->
      calculateBackoff rand1 n < 30000 ->
      calculateBackoff rand2 (S n) < 30000 ->
      calculateBackoff rand1 n < calculateBackoff rand2 (S n)).
Proof.
  split; [| split].
  - intros n rand H0 H1. split; [lra | split; [lra | reflexivity]].
  - intros n j H0 H1.
    assert (Hj : j / 500 * 500 == j) by (field; discriminate).
    assert (Hd : j / 500 == j * (1 # 500)) by reflexivity.
    split; [rewrite Hd; lra | split; [rewrite Hd; lra |]].
    unfold calculateBackoff. cbv zeta. rewrite Hj. reflexivity.
  - intros n r1 r2 H1 H1' H2 H2' Hc1 Hc2.
    rewrite (calculateBackoff_below_cap r1 n Hc1).
    rewrite (calculateBackoff_below_cap r2 (S n) Hc2).
    rewrite pow2_succ. pose proof (pow2_ge_1 n). lra.
Qed.

(** The theorem at attempts 0 and 1 with both draws one half: 1250 ms, then
    2250 ms. *)
Lemma calculateBackoff_exponential_witness :
  calculateBackoff (1 # 2) 0 == 1250 /\
  calculateBackoff (1 # 2) 1 == 2250 /\
  calculateBackoff (1 # 2) 0 < calculateBackoff (1 # 2) 1.
Proof.
  split; [reflexivity | split; [reflexivity |]].
  apply (proj2 (proj2 calculateBackoff_exponential) 0%nat (1 # 2) (1 # 2));
    vm_compute; first [reflexivity | discriminate].
Defined.

(** ** C5 *)

Lemma wire_code_rate_limit (body : Js.object) :
  Js.get "error" body = Some (Js.Str "rate_limit_exceeded") ->
  wire_code (Js.Obj body) = Js.Str "rate_limit_exceeded".
Proof.
  intros H. unfold wire_code. simpl. rewrite H. reflexivity.
Qed.

(** C5 fails as the specification states it: a body with [retryAfter: 0]
    has the field, and the error carries 60, not 0. *)
Lemma fromResponse_retryAfter_zero :
  Js.get "error" Mock.retry_at_once = Some (Js.Str "rate_limit_exceeded") /\
  Js.get "retryAfter" Mock.retry_at_once = Some (Js.Num 0) /\
  retryAfter_of (fromResponse 429 Mock.retry_at_once) = Some (Js.Num 60) /\
  Js.Num 60 <> Js.Num 0.
Proof.
  repeat split; try reflexivity. discriminate.
Qed.

(** C5, amended. For every status and every wire body whose code is
    [rate_limit_exceeded], [fromResponse] returns a [RateLimitError] with that
    status whose [retryAfter] is the body's [retryAfter] when that field is
    present and truthy, and 60 when it is absent or falsy (0, [null], [false],
    the empty string). A request whose first response is such an error
    response ends after one attempt with that error; so a 429 with
    [retryAfter: 45] gives 45. *)
Theorem fromResponse_rate_limit_retryAfter :
  (forall (st : Z) (body : Js.object),
      Js.get "error" body = Some (Js.Str "rate_limit_exceeded") ->
      isRateLimitError (fromResponse st body) = true /\
      statusCode_of (fromResponse st body) = Some st /\
      retryAfter_of (fromResponse st body)
      = Some match Js.get "retryAfter" body with
             | Some v => if Js.truthy v then v else Js.Num 60
             | None => Js.Num 60
             end) /\
  (forall (env : Env) (c : HttpClient) (r : Response) (body : Js.object),
      (0 <= maxRetries (config c))%Z ->
      fetch env 0 = Fulfilled r ->
      ok r = false ->
      readBody r = inr (Js.Obj body) ->
      Js.get "error" body = Some (Js.Str "rate_limit_exceeded") ->
      exists e : SendlyError,
        result (request env c) = inl (ThrowSendly e) /\
        isRateLimitError e = true /\
        statusCode_of e = Some (status r) /\
        retryAfter_of e
        = Some match Js.get "retryAfter" body with
               | Some v => if Js.truthy v then v else Js.Num 60
               | None => Js.Num 60
               end /\
        effects (request env c) = [Fetch 0]).
Proof.
  split.
  - intros st body H. rewrite (fromResponse_rate_limit st body H).
    repeat split; reflexivity.
  - intros env c r body Hmax Hf Hok Hd Herr.
    pose proof (wire_code_rate_limit body Herr) as Hw.
    assert (Hb : Js.get "error" (errorBody (status r) (Js.Obj body))
                 = Some (Js.Str "rate_limit_exceeded")).
    { rewrite errorBody_error. fold (wire_code (Js.Obj body)). now rewrite Hw. }
    exists (fromResponse (status r) (errorBody (status r) (Js.Obj body))).
    assert (Hrl : isRateLimitError
                    (fromResponse (status r) (errorBody (status r) (Js.Obj body)))
                  = true).
    { apply fromResponse_isRateLimitError. exact Hw. }
    assert (Ha : fst (attempt_once c (fetch env 0))
                 = inl (ThrowSendly
                          (fromResponse (status r)
                             (errorBody (status r) (Js.Obj body))))).
    { rewrite Hf. apply attempt_once_error_response; assumption. }
    unfold request. rewrite iterations_of by exact Hmax.
    destruct (loop_rethrows_non_retryable env (Z.to_nat (maxRetries (config c)))
                0 c None [] _ Ha (or_intror Hrl)) as [Hres Heff].
    repeat split.
    + exact Hres.
    + exact Hrl.
    + apply fromResponse_statusCode.
    + rewrite (fromResponse_rate_limit _ _ Hb). simpl.
      rewrite errorBody_get by discriminate. reflexivity.
    + exact Heff.
Qed.

(** The theorem at a transport that answers 429 with [retryAfter: 45]: the
    request ends after one call with a rate-limit error that carries 45. *)
Lemma fromResponse_rate_limit_retryAfter_witness :
  exists e : SendlyError,
    result (request (Mock.env_of (Mock.always Mock.rate_limited)) (Mock.client_with 3))
    = inl (ThrowSendly e) /\
    isRateLimitError e = true /\
    statusCode_of e = Some 429%Z /\
    retryAfter_of e = Some (Js.Num 45) /\
    effects (request (Mock.env_of (Mock.always Mock.rate_limited)) (Mock.client_with 3))
    = [Fetch 0].
Proof.
  refine (proj2 fromResponse_rate_limit_retryAfter
            (Mock.env_of (Mock.always Mock.rate_limited)) (Mock.client_with 3)
            _ [("error", Js.Str "rate_limit_exceeded");
               ("message", Js.Str "Too many requests");
               ("retryAfter", Js.Num 45)]
            _ eq_refl eq_refl eq_refl eq_refl).
  simpl. lia.
Defined.

(** ** C9 *)

Lemma loop_config (env : Env) (n : nat) :
  forall (k : nat) (c : HttpClient) (last : option Thrown) (done : list Effect),
    config (client (request_loop env n k c last done)) = config c.
Proof.
  induction n as [| n IH]; intros k c last done; [reflexivity |].
  cbn [request_loop].
  pose proof (attempt_once_config c (fetch env k)) as Hc.
  destruct (attempt_once c (fetch env k)) as [[error | data] c1]; simpl in Hc.
  - destruct (rethrown error); [exact Hc |].
    destruct (Z.of_nat k <? maxRetries (config c))%Z; rewrite IH; exact Hc.
  - exact Hc.
Qed.

(** C9 fails as the specification states it: a header that is present
    with an empty value counts as absent, and the snapshot is not replaced. *)
Lemma updateRateLimitInfo_empty_value :
  Headers_get "X-RateLimit-Limit" Mock.empty_limit = Some "" /\
  Headers_get "X-RateLimit-Remaining" Mock.empty_limit = Some "42" /\
  Headers_get "X-RateLimit-Reset" Mock.empty_limit = Some "60" /\
  rateLimitInfo (updateRateLimitInfo (Mock.client_with 3) Mock.empty_limit) = None /\
  @None RateLimitInfo
  <> Some {| limit := parseInt ""; remaining := parseInt "42"; reset := parseInt "60" |}.
Proof.
  repeat split; try reflexivity. discriminate.
Qed.

(** C9, amended. After every attempt that returns a response, successful or
    not, the snapshot is replaced with [parseInt] of the three rate-limit
    headers if all three are present with a non-empty value; if one of them
    is absent (or empty) the client is left as it was; an attempt without a
    response leaves the client as it was; and neither the update nor a
    whole request changes the configuration. *)
Theorem updateRateLimitInfo_frame :
  (forall (c : HttpClient) (h : Headers) (l r t : string),
      Headers_get "X-RateLimit-Limit" h = Some l ->
      Headers_get "X-RateLimit-Remaining" h = Some r ->
      Headers_get "X-RateLimit-Reset" h = Some t ->
      l <> "" -> r <> "" -> t <> "" ->
      updateRateLimitInfo c h
      = {| config := config c;
           rateLimitInfo :=
             Some {| limit := parseInt l;
                     remaining := parseInt r;
                     reset := parseInt t |} |}) /\
  (forall (c : HttpClient) (h : Headers),
      present (Headers_get "X-RateLimit-Limit" h) = false \/
      present (Headers_get "X-RateLimit-Remaining" h) = false \/
      present (Headers_get "X-RateLimit-Reset" h) = false ->
      updateRateLimitInfo c h = c) /\
  (forall (c : HttpClient) (h : Headers),
      Headers_get "X-RateLimit-Limit" h = None \/
      Headers_get "X-RateLimit-Remaining" h = None \/
      Headers_get "X-RateLimit-Reset" h = None ->
      updateRateLimitInfo c h = c) /\
  (forall (c : HttpClient) (r : Response),
      snd (attempt_once c (Fulfilled r)) = updateRateLimitInfo c (headers r)) /\
  (forall (c : HttpClient) (name message : string),
      snd (attempt_once c (Rejected name message)) = c) /\
  (forall (c : HttpClient) (h : Headers),
      config (updateRateLimitInfo c h) = config c) /\
  (forall (env : Env) (c : HttpClient),
      config (client (request env c)) = config c).
Proof.
  assert (Hfalsy : forall (c : HttpClient) (h : Headers),
             present (Headers_get "X-RateLimit-Limit" h) = false \/
             present (Headers_get "X-RateLimit-Remaining" h) = false \/
             present (Headers_get "X-RateLimit-Reset" h) = false ->
             updateRateLimitInfo c h = c).
  { intros c h H. unfold updateRateLimitInfo.
    destruct H as [H | [H | H]]; rewrite H;
      rewrite ?andb_false_r; reflexivity. }
  repeat apply conj.
  - intros c h l r t Hl Hr Ht Nl Nr Nt. unfold updateRateLimitInfo.
    rewrite Hl, Hr, Ht. simpl.
    apply String.eqb_neq in Nl, Nr, Nt. rewrite Nl, Nr, Nt. reflexivity.
  - exact Hfalsy.
  - intros c h H. apply Hfalsy.
    destruct H as [H | [H | H]]; rewrite H; auto.
  - reflexivity.
  - intros c name message. unfold attempt_once, executeRequest.
    destruct (name =? "AbortError"); reflexivity.
  - apply updateRateLimitInfo_config.
  - intros env c. apply loop_config.
Qed.

(** The theorem at a successful exchange that carries the three headers,
    followed by one that carries none: the accessor reports 42 remaining
    after both. *)
Lemma updateRateLimitInfo_frame_witness :
  let c1 := updateRateLimitInfo (Mock.client_with 3) (Mock.rate_headers "100" "42" "60") in
  getRateLimitInfo c1
  = Some {| limit := Int 100; remaining := Int 42; reset := Int 60 |} /\
  getRateLimitInfo (updateRateLimitInfo c1 Mock.json_headers) = getRateLimitInfo c1.
Proof.
  cbv zeta. split.
  - rewrite (proj1 updateRateLimitInfo_frame (Mock.client_with 3)
               (Mock.rate_headers "100" "42" "60") "100" "42" "60"
               eq_refl eq_refl eq_refl);
      [reflexivity | discriminate | discriminate | discriminate].
  - reflexivity.
Defined.

(** ** Webhook signatures *)

Section WebhookProperties.

Context {P : Platform}.

Lemma missing_false (s : option string) :
  missing s = false <-> exists v, s = Some v /\ v <> "".
Proof.
  destruct s as [v |]; simpl.
  - rewrite String.eqb_neq. split.
    + intros H. exists v. auto.
    + intros [v' [[= <-] H]]. exact H.
  - split; [discriminate | intros [v [[=] _]]].
Qed.

Lemma signature_not_empty (payload secret : string) :
  generateWebhookSignature payload secret <> "".
Proof. discriminate. Qed.

(** [verifyWebhookSignature] returns [true] exactly when no argument is
    missing and the signature is the expected one. *)
Lemma verify_true_iff (payload signature secret : option string) :
  verifyWebhookSignature payload signature secret = inr true <->
  missing payload = false /\ missing signature = false /\ missing secret = false /\
  text_of signature = generateWebhookSignature (text_of payload) (text_of secret).
Proof.
  unfold verifyWebhookSignature.
  destruct (missing payload); simpl; [split; [discriminate | intros [[=] _]] |].
  destruct (missing signature); simpl; [split; [discriminate | intros [_ [[=] _]]] |].
  destruct (missing secret); simpl; [split; [discriminate | intros [_ [_ [[=] _]]]] |].
  unfold timingSafeEqual.
  destruct (String.length _ =? String.length _)%nat eqn:El.
  - destruct (String.eqb _ _) eqn:E.
    + apply String.eqb_eq in E. tauto.
    + apply String.eqb_neq in E. split; [discriminate | tauto].
  - split; [discriminate |]. intros (_ & _ & _ & E). rewrite E in El.
    now rewrite Nat.eqb_refl in El.
Qed.

Lemma verify_total (payload signature secret : option string) :
  exists b, verifyWebhookSignature payload signature secret = inr b.
Proof.
  unfold verifyWebhookSignature.
  destruct (missing payload || missing signature || missing secret);
    [now exists false |].
  destruct (timingSafeEqual _ _) as [e | b]; [now exists false | now exists b].
Qed.

Lemma verify_false_iff (payload signature secret : option string) :
  verifyWebhookSignature payload signature secret = inr false <->
  verifyWebhookSignature payload signature secret <> inr true.
Proof.
  destruct (verify_total payload signature secret) as [[|] H]; rewrite H;
    split; congruence.
Qed.

End WebhookProperties.

(** ** C6 *)

(** C6 fails as the specification states it: for the empty payload the
    signature that [sign] produces is rejected by [verify]. *)
Lemma verify_rejects_empty_payload :
  verifyWebhookSignature (P := Reference.platform) (Some "")
    (Some (generateWebhookSignature (P := Reference.platform) "" Mock.secret))
    (Some Mock.secret)
  = inr false.
Proof. reflexivity. Qed.

(** C6, amended. [generateWebhookSignature] is a function of the payload
    and the secret: it returns ["sha256="] followed by the hexadecimal
    HMAC-SHA256 of the payload under the secret, the same for the same
    arguments. [verify] accepts the signature [sign] produces for every
    payload and secret that are both non-empty, and rejects it when the
    payload or the secret is empty. *)
Theorem sign_verify_roundtrip (P : Platform) :
  (forall payload secret : string,
      generateWebhookSignature payload secret
      = "sha256=" ++ hmac_sha256_hex secret payload) /\
  (forall payload1 payload2 secret1 secret2 : string,
      payload1 = payload2 -> secret1 = secret2 ->
      generateWebhookSignature payload1 secret1
      = generateWebhookSignature payload2 secret2) /\
  (forall payload secret : string,
      payload <> "" -> secret <> "" ->
      verifyWebhookSignature (Some payload)
        (Some (generateWebhookSignature payload secret)) (Some secret)
      = inr true) /\
  (forall payload secret : string,
      payload = "" \/ secret = "" ->
      verifyWebhookSignature (Some payload)
        (Some (generateWebhookSignature payload secret)) (Some secret)
      = inr false).
Proof.
  split; [reflexivity | split; [| split]].
  - intros p1 p2 s1 s2 -> ->. reflexivity.
  - intros payload secret Hp Hs. apply verify_true_iff.
    repeat split; try (apply missing_false; eexists; split; [reflexivity |]);
      auto using signature_not_empty.
  - intros payload secret [-> | ->]; unfold verifyWebhookSignature; simpl.
    + reflexivity.
    + rewrite orb_true_r. reflexivity.
Qed.

(** The theorem at a payload and a secret of the reference platform. *)
Lemma sign_verify_roundtrip_witness :
  Mock.event_text <> "" /\ Mock.secret <> "" /\
  verifyWebhookSignature (P := Reference.platform) (Some Mock.event_text)
    (Some (generateWebhookSignature (P := Reference.platform)
             Mock.event_text Mock.secret))
    (Some Mock.secret)
  = inr true.
Proof.
  assert (Hp : Mock.event_text <> "") by discriminate.
  assert (Hs : Mock.secret <> "") by discriminate.
  split; [exact Hp | split; [exact Hs |]].
  exact (proj1 (proj2 (proj2 (sign_verify_roundtrip Reference.platform)))
           Mock.event_text Mock.secret Hp Hs).
Defined.

(** ** C7 *)

(** C7. [verifyWebhookSignature] never throws: it always returns a boolean.
    It returns [false] when the payload, the signature or the secret is
    empty or absent, and [false] when the signature is not the expected one
    for the payload and the secret: of the same length but different, of
    another length, or the signature under a secret that gives another
    signature. *)
Theorem verify_never_throws (P : Platform) :
  (forall payload signature secret : option string,
      exists b, verifyWebhookSignature payload signature secret = inr b) /\
  (forall payload signature secret : option string,
      missing payload = true \/ missing signature = true \/ missing secret = true ->
      verifyWebhookSignature payload signature secret = inr false) /\
  (forall payload signature secret : option string,
      signature
      <> Some (generateWebhookSignature (text_of payload) (text_of secret)) ->
      verifyWebhookSignature payload signature secret = inr false) /\
  (forall payload signature secret : string,
      String.length signature
      = String.length (generateWebhookSignature payload secret) ->
      signature <> generateWebhookSignature payload secret ->
      verifyWebhookSignature (Some payload) (Some signature) (Some secret)
      = inr false) /\
  (forall payload signature secret : string,
      String.length signature
      <> String.length (generateWebhookSignature payload secret) ->
      verifyWebhookSignature (Some payload) (Some signature) (Some secret)
      = inr false) /\
  (forall payload secret wrong : string,
      generateWebhookSignature payload wrong
      <> generateWebhookSignature payload secret ->
      verifyWebhookSignature (Some payload)
        (Some (generateWebhookSignature payload wrong)) (Some secret)
      = inr false).
Proof.
  assert (Hdiff : forall payload signature secret : option string,
             signature
             <> Some (generateWebhookSignature (text_of payload) (text_of secret)) ->
             verifyWebhookSignature payload signature secret = inr false).
  { intros payload signature secret H. apply verify_false_iff.
    rewrite verify_true_iff. intros (_ & Hs & _ & E). apply H.
    apply missing_false in Hs. destruct Hs as [v [-> _]]. simpl in E.
    now rewrite E. }
  repeat apply conj.
  - apply verify_total.
  - intros payload signature secret H. apply verify_false_iff.
    rewrite verify_true_iff. intros (Hp & Hs & Hk & _).
    destruct H as [H | [H | H]]; congruence.
  - exact Hdiff.
  - intros payload signature secret _ H. apply Hdiff. simpl. congruence.
  - intros payload signature secret H. apply Hdiff. simpl. congruence.
  - intros payload secret wrong H. apply Hdiff. simpl. congruence.
Qed.

(** The theorem at a signature made with another secret. *)
Lemma verify_never_throws_witness :
  generateWebhookSignature (P := Reference.platform) Mock.event_text "other"
  <> generateWebhookSignature (P := Reference.platform) Mock.event_text Mock.secret /\
  verifyWebhookSignature (P := Reference.platform) (Some Mock.event_text)
    (Some (generateWebhookSignature (P := Reference.platform) Mock.event_text "other"))
    (Some Mock.secret)
  = inr false.
Proof.
  assert (H : generateWebhookSignature (P := Reference.platform) Mock.event_text "other"
              <> generateWebhookSignature (P := Reference.platform)
                   Mock.event_text Mock.secret)
    by (vm_compute; discriminate).
  split; [exact H |].
  destruct (verify_never_throws Reference.platform) as (_ & _ & _ & _ & _ & Hwrong).
  exact (Hwrong Mock.event_text Mock.secret "other" H).
Defined.

(** ** C8 *)

Lemma lacks_field_false (event : Js.value) :
  lacks_field event = false <->
  Js.truthy_opt (Js.get_opt event "id") = true /\
  Js.truthy_opt (Js.get_opt event "type") = true /\
  Js.truthy_opt (Js.get_opt event "createdAt") = true.
Proof.
  unfold lacks_field. rewrite !orb_false_iff, !negb_false_iff. tauto.
Qed.

(** What [parseWebhookEvent] does in general. It throws the signature error
    exactly when the verification fails. When the verification succeeds and
    the payload is not valid JSON, or the parsed value has no [id], [type] or
    [createdAt], it throws another error, never the signature error. An
    event is returned only when the verification succeeds, the payload
    parses to that event, and the three fields are there; and then it is
    returned. *)
Lemma parseWebhookEvent_errors (P : Platform)
  (payload signature secret : option string) :
  ((exists m, parseWebhookEvent payload signature secret
              = inl (ThrowWebhookSignatureError m))
   <-> verifyWebhookSignature payload signature secret = inr false) /\
  (verifyWebhookSignature payload signature secret = inr true ->
   JSON_parse (text_of payload) = None ->
   parseWebhookEvent payload signature secret
   = inl (ThrowError "Failed to parse webhook payload")) /\
  (forall event : Js.value,
      verifyWebhookSignature payload signature secret = inr true ->
      JSON_parse (text_of payload) = Some event ->
      Js.get_opt event "id" = None \/ Js.get_opt event "type" = None \/
      Js.get_opt event "createdAt" = None ->
      exists error : Thrown,
        parseWebhookEvent payload signature secret = inl error /\
        (forall m, error <> ThrowWebhookSignatureError m) /\
        (error = ThrowError "Invalid webhook event structure" \/
         event = Js.Null /\ exists m, error = ThrowTypeError m)) /\
  (forall event : Js.value,
      parseWebhookEvent payload signature secret = inr event ->
      verifyWebhookSignature payload signature secret = inr true /\
      JSON_parse (text_of payload) = Some event /\
      Js.truthy_opt (Js.get_opt event "id") = true /\
      Js.truthy_opt (Js.get_opt event "type") = true /\
      Js.truthy_opt (Js.get_opt event "createdAt") = true) /\
  (forall event : Js.value,
      verifyWebhookSignature payload signature secret = inr true ->
      JSON_parse (text_of payload) = Some event ->
      Js.truthy_opt (Js.get_opt event "id") = true ->
      Js.truthy_opt (Js.get_opt event "type") = true ->
      Js.truthy_opt (Js.get_opt event "createdAt") = true ->
      parseWebhookEvent payload signature secret = inr event).
Proof.
  unfold parseWebhookEvent.
  destruct (verify_total payload signature secret) as [b Hv]. rewrite Hv.
  destruct b.
  - (* the signature is accepted *)
    split; [| split; [| split; [| split]]].
    + split; [| discriminate].
      intros [m H]. exfalso.
      destruct (JSON_parse (text_of payload)) as [[| ? | ? | ? | ? | ?] |];
        try discriminate H;
        match type of H with
        | context [lacks_field ?e] => destruct (lacks_field e); discriminate H
        end.
    + intros _ ->. reflexivity.
    + intros event _ -> Hmiss.
      assert (Hl : event <> Js.Null -> lacks_field event = true).
      { intros _. unfold lacks_field.
        destruct Hmiss as [-> | [-> | ->]]; simpl; rewrite ?orb_true_r; reflexivity. }
      destruct event as [| b | n | s | l | kvs];
        try (rewrite Hl by discriminate; eexists;
             split; [reflexivity | split; [discriminate | left; reflexivity]]).
      eexists. split; [reflexivity | split; [discriminate |]].
      right. split; [reflexivity | eexists; reflexivity].
    + intros event H.
      destruct (JSON_parse (text_of payload)) as [ev |]; [| discriminate H].
      assert (Hev : lacks_field ev = false /\ ev = event).
      { destruct ev as [| ? | ? | ? | ? | ?]; try discriminate H;
          match type of H with
          | context [lacks_field ?e] =>
              destruct (lacks_field e); [discriminate H | injection H as <-; auto]
          end. }
      destruct Hev as [Hl <-]. apply lacks_field_false in Hl.
      repeat split; tauto.
    + intros event _ -> Hid Hty Hcr.
      assert (Hl : lacks_field event = false)
        by (apply lacks_field_false; auto).
      destruct event as [| ? | ? | ? | ? | ?]; [discriminate Hid | ..];
        rewrite Hl; reflexivity.
  - (* the signature is rejected *)
    split; [| split; [| split; [| split]]].
    + split; [reflexivity | intros _; eexists; reflexivity].
    + discriminate.
    + discriminate.
    + discriminate.
    + discriminate.
Qed.

(** C8. A correctly signed payload whose text is the JSON literal [null]:
    the parse succeeds, and the test [!event.id], which is outside the [try]
    block, reads a property of [null] and throws a [TypeError]. Every other
    parsed value that lacks [id], [type] or [createdAt] (a number, a string,
    an array, an object without the field) gets the structural error,
    [Error] with the message [Invalid webhook event structure]. *)
Theorem parseWebhookEvent_null_payload (P : Platform)
  (payload signature secret : option string) :
  verifyWebhookSignature payload signature secret = inr true ->
  (JSON_parse (text_of payload) = Some Js.Null ->
   parseWebhookEvent payload signature secret
   = inl (ThrowTypeError "Cannot read properties of null (reading 'id')")) /\
  (forall event : Js.value,
      JSON_parse (text_of payload) = Some event ->
      event <> Js.Null ->
      Js.get_opt event "id" = None \/ Js.get_opt event "type" = None \/
      Js.get_opt event "createdAt" = None ->
      parseWebhookEvent payload signature secret
      = inl (ThrowError "Invalid webhook event structure")).
Proof.
  intros Hv. unfold parseWebhookEvent. rewrite Hv. split.
  - intros ->. reflexivity.
  - intros event -> Hnull Hmiss.
    assert (Hl : lacks_field event = true).
    { unfold lacks_field.
      destruct Hmiss as [-> | [-> | ->]]; simpl; rewrite ?orb_true_r; reflexivity. }
    destruct event as [| b | n | s | l | kvs]; [contradiction | ..];
      rewrite Hl; reflexivity.
Qed.

(** The payloads [null] and [5], signed with the secret (reference
    platform). *)
Lemma parseWebhookEvent_null_payload_witness :
  parseWebhookEvent (P := Reference.platform) (Some "null")
    (Some (generateWebhookSignature (P := Reference.platform) "null" Mock.secret))
    (Some Mock.secret)
  = inl (ThrowTypeError "Cannot read properties of null (reading 'id')") /\
  parseWebhookEvent (P := Reference.platform) (Some "5")
    (Some (generateWebhookSignature (P := Reference.platform) "5" Mock.secret))
    (Some Mock.secret)
  = inl (ThrowError "Invalid webhook event structure").
Proof.
  split.
  - apply (parseWebhookEvent_null_payload Reference.platform (Some "null")
             (Some (generateWebhookSignature (P := Reference.platform)
                      "null" Mock.secret))
             (Some Mock.secret));
      vm_compute; reflexivity.
  - apply (proj2 (parseWebhookEvent_null_payload Reference.platform (Some "5")
                    (Some (generateWebhookSignature (P := Reference.platform)
                             "5" Mock.secret))
                    (Some Mock.secret) ltac:(vm_compute; reflexivity))
             (Js.Num 5)).
    + vm_compute. reflexivity.
    + discriminate.
    + left. reflexivity.
Defined.

(** ** C1 *)

(** The key test is the pattern [sk_(test|live)_v1_<token>] with a non-empty
    token over letters, digits, underscore and hyphen. *)
Lemma isValidApiKey_iff (key : string) :
  isValidApiKey key = true <->
  exists env token : string,
    (env = "test" \/ env = "live") /\
    key = "sk_" ++ env ++ "_v1_" ++ token /\
    is_key_token token = true.
Proof.
  unfold isValidApiKey. split.
  - destruct (Js.strip_prefix "sk_" key) as [er |] eqn:E1; [| discriminate].
    apply strip_prefix_spec in E1.
    destruct (Js.strip_prefix "test" er) as [rest |] eqn:E2.
    + apply strip_prefix_spec in E2.
      destruct (Js.strip_prefix "_v1_" rest) as [token |] eqn:E3; [| discriminate].
      apply strip_prefix_spec in E3. intros Ht.
      exists "test", token. subst. auto.
    + destruct (Js.strip_prefix "live" er) as [rest |] eqn:E3; [| discriminate].
      apply strip_prefix_spec in E3.
      destruct (Js.strip_prefix "_v1_" rest) as [token |] eqn:E4; [| discriminate].
      apply strip_prefix_spec in E4. intros Ht.
      exists "live", token. subst. auto.
  - intros (env & token & [-> | ->] & -> & Ht); simpl; exact Ht.
Qed.

Lemma HttpClient_new_inr (P : Platform) (c : SendlyConfig) (h : HttpClient) :
  HttpClient_new c = inr h ->
  h = {| config := resolve c; rateLimitInfo := None |}.
Proof.
  unfold HttpClient_new.
  destruct (negb (isValidApiKey (apiKey (resolve c)))); [discriminate |].
  destruct (URL_parse (baseUrl (resolve c))) as [u |]; [| discriminate].
  destruct (insecure u); [discriminate |]. now intros [= <-].
Qed.

(** C1 fails as the specification states it: a configuration whose
    [baseUrl] is the empty string, which is no URL at all, is accepted: the
    default takes its place. *)
Lemma HttpClient_new_empty_baseUrl :
  cfg_baseUrl (Mock.config_with (Some "")) = Some "" /\
  URL_parse (Platform := Reference.platform) "" = None /\
  HttpClient_new (P := Reference.platform) (Mock.config_with (Some ""))
  = inr {| config := {| apiKey := Mock.KEY;
                        baseUrl := DEFAULT_BASE_URL;
                        timeout := DEFAULT_TIMEOUT;
                        maxRetries := DEFAULT_MAX_RETRIES |};
           rateLimitInfo := None |}.
Proof. repeat split; reflexivity. Qed.

(** The guard tests the host name with [includes]: over plain HTTP, a host
    that merely contains [localhost] passes it. *)
Example HttpClient_new_host_containing_localhost :
  HttpClient_new (P := Reference.platform)
    (Mock.config_with (Some "http://notlocalhost.example.com"))
  = inr {| config := {| apiKey := Mock.KEY;
                        baseUrl := "http://notlocalhost.example.com";
                        timeout := DEFAULT_TIMEOUT;
                        maxRetries := DEFAULT_MAX_RETRIES |};
           rateLimitInfo := None |}.
Proof. reflexivity. Qed.

(** C1, amended. The key test is the pattern [sk_(test|live)_v1_<token>].
    The base URL that is checked is the configured one, or the default when
    none or an empty one is configured. Construction throws the key error for
    every key that does not match the pattern, whatever the URL. For a matching key it throws when the URL does not parse, throws the
    HTTPS error when the URL parses with a protocol other than [https:] and a
    host name that neither contains [localhost] nor is [127.0.0.1], and
    succeeds, storing the resolved configuration, when the URL parses with
    protocol [https:] or host name [localhost] or [127.0.0.1]. The
    constructor is a function of the configuration alone: it throws before
    any use of the network. *)
Theorem HttpClient_new_validation (P : Platform) (c : SendlyConfig) :
  (isValidApiKey (cfg_apiKey c) = true <->
   exists env token : string,
     (env = "test" \/ env = "live") /\
     cfg_apiKey c = "sk_" ++ env ++ "_v1_" ++ token /\
     is_key_token token = true) /\
  (isValidApiKey (cfg_apiKey c) = false ->
   HttpClient_new c = inl (ThrowError INVALID_KEY_MESSAGE)) /\
  (isValidApiKey (cfg_apiKey c) = true ->
   URL_parse (or_string (cfg_baseUrl c) DEFAULT_BASE_URL) = None ->
   HttpClient_new c = inl (ThrowTypeError "Invalid URL")) /\
  (forall u : URL,
      isValidApiKey (cfg_apiKey c) = true ->
      URL_parse (or_string (cfg_baseUrl c) DEFAULT_BASE_URL) = Some u ->
      protocol u <> "https:" ->
      Js.includes (hostname u) "localhost" = false ->
      hostname u <> "127.0.0.1" ->
      HttpClient_new c = inl (ThrowError INSECURE_URL_MESSAGE)) /\
  (forall u : URL,
      isValidApiKey (cfg_apiKey c) = true ->
      URL_parse (or_string (cfg_baseUrl c) DEFAULT_BASE_URL) = Some u ->
      protocol u = "https:" \/ hostname u = "localhost" \/ hostname u = "127.0.0.1" ->
      HttpClient_new c = inr {| config := resolve c; rateLimitInfo := None |}).
Proof.
  split; [apply isValidApiKey_iff |].
  unfold HttpClient_new. cbn [resolve apiKey baseUrl].
  split; [| split; [| split]].
  - intros ->. reflexivity.
  - intros -> ->. reflexivity.
  - intros u -> -> Hp Hl Hh. unfold insecure.
    apply String.eqb_neq in Hp, Hh. rewrite Hp, Hl, Hh. reflexivity.
  - intros u -> -> H. unfold insecure.
    destruct H as [H | [H | H]]; rewrite H.
    + reflexivity.
    + rewrite andb_false_r. reflexivity.
    + rewrite String.eqb_refl, andb_false_r. reflexivity.
Qed.

(** The theorem for a local development server over plain HTTP (reference
    platform). *)
Lemma HttpClient_new_validation_witness :
  isValidApiKey Mock.KEY = true /\
  URL_parse (Platform := Reference.platform) "http://localhost:3000/api"
  = Some {| protocol := "http:"; hostname := "localhost" |} /\
  HttpClient_new (P := Reference.platform)
    (Mock.config_with (Some "http://localhost:3000/api"))
  = inr {| config := resolve (Mock.config_with (Some "http://localhost:3000/api"));
           rateLimitInfo := None |}.
Proof.
  split; [reflexivity | split; [reflexivity |]].
  destruct (HttpClient_new_validation Reference.platform
              (Mock.config_with (Some "http://localhost:3000/api")))
    as (_ & _ & _ & _ & Hok).
  apply (Hok {| protocol := "http:"; hostname := "localhost" |});
    [reflexivity | reflexivity | right; left; reflexivity].
Defined.

(** ** C10 *)



(** The implementation agrees with the published test vectors: the digest
    of ["abc"] (FIPS 180-4) and the second case of RFC 4231. *)
Example sha256_abc :
  Reference.hex (Reference.sha256 (Reference.bytes_of_string "abc"))
  = "ba7816bf8f01cfea414140de5dae2223b00361a396177a9cb410ff61f20015ad".
Proof. vm_compute. reflexivity. Qed.

Example hmac_rfc4231_case2 :
  Reference.hmac_hex "Jefe" "what do ya want for nothing?"
  = "5bdcc146bf60754e6a042426089575c75a003f089d2739839dec58b964ec3843".
Proof. vm_compute. reflexivity. Qed.

(** * Further properties *)

(** ** The error factory keeps what the wire says *)

Lemma or_truthy (a : option Js.value) (d : Js.value) :
  Js.truthy d = true -> Js.truthy (Js.or a d) = true.
Proof.
  intros Hd. unfold Js.or. destruct a as [v |]; [| exact Hd].
  destruct (Js.truthy v) eqn:E; [exact E | exact Hd].
Qed.

Lemma or_of_truthy (v d : Js.value) :
  Js.truthy v = true -> Js.or (Some v) d = v.
Proof. intros H. unfold Js.or. now rewrite H. Qed.

Lemma or_of_falsy (a : option Js.value) (d : Js.value) :
  Js.truthy_opt a = false -> Js.or a d = d.
Proof.
  unfold Js.truthy_opt, Js.or. destruct a as [v |]; [| reflexivity].
  intros ->. reflexivity.
Qed.

Lemma code_branch_fixed (code : Js.value) :
  (code_branch code = BrInsufficientCredits -> code = Js.Str "insufficient_credits") /\
  (code_branch code = BrNotFound -> code = Js.Str "not_found").
Proof.
  unfold code_branch.
  destruct code as [| b | n | s | l | kvs]; try (split; discriminate).
  match goal with
  | |- context [among s ("unauthorized" :: ?l)] =>
      destruct (among s ("unauthorized" :: l)); [split; discriminate |]
  end.
  destruct (s =? "rate_limit_exceeded"); [split; discriminate |].
  destruct (s =? "insufficient_credits") eqn:Ei.
  - apply String.eqb_eq in Ei. subst. split; [reflexivity | discriminate].
  - match goal with
    | |- context [among s ("invalid_request" :: ?l)] =>
        destruct (among s ("invalid_request" :: l)); [split; discriminate |]
    end.
    destruct (s =? "not_found") eqn:En.
    + apply String.eqb_eq in En. subst. split; [discriminate | reflexivity].
    + split; discriminate.
Qed.

Lemma fromResponse_fields (st : Z) (body : Js.object) :
  code_of (fromResponse st body)
  = Js.or (Js.get "error" body) (Js.Str "internal_error") /\
  message_of (fromResponse st body)
  = Js.or (Js.get "message" body) (Js.Str "An unknown error occurred") /\
  statusCode_of (fromResponse st body) = Some st /\
  response_of (fromResponse st body) = Some body.
Proof.
  unfold fromResponse.
  destruct (code_branch (Js.or (Js.get "error" body) (Js.Str "internal_error")))
    eqn:E; simpl; repeat split; try reflexivity.
  - apply code_branch_rate_limit in E. now rewrite E.
  - apply code_branch_fixed in E. now rewrite E.
  - apply code_branch_fixed in E. now rewrite E.
Qed.

(** X1. Whatever class [fromResponse] picks, the error carries the code the
    wire body has ([internal_error] when it has none or a falsy one), the
    status it was given and the body itself. A message of the body that is a
    non-empty string is the message of the error; without a message, or with
    a falsy one, the message is the default of the factory. (A message of
    another type is converted to a string by [Error]; the statement does not
    speak of it.) *)
Theorem fromResponse_keeps_wire_fields (st : Z) (body : Js.object) :
  code_of (fromResponse st body)
  = Js.or (Js.get "error" body) (Js.Str "internal_error") /\
  (forall s : string,
      s <> "" ->
      Js.get "message" body = Some (Js.Str s) ->
      message_of (fromResponse st body) = Js.Str s) /\
  (Js.truthy_opt (Js.get "message" body) = false ->
   message_of (fromResponse st body) = Js.Str "An unknown error occurred") /\
  statusCode_of (fromResponse st body) = Some st /\
  response_of (fromResponse st body) = Some body.
Proof.
  destruct (fromResponse_fields st body) as (Hc & Hm & Hs & Hr).
  split; [exact Hc |]. split; [| split; [| split; [exact Hs | exact Hr]]].
  - intros s Hne Hget. rewrite Hm, Hget. apply or_of_truthy.
    destruct s; [contradiction | reflexivity].
  - intros Hf. rewrite Hm. apply or_of_falsy. exact Hf.
Qed.

(** ** Bounds of the back-off *)

Lemma pow2_ge_32 (n : nat) : (5 <= n)%nat -> 32 <= inject_Z (2 ^ Z.of_nat n).
Proof.
  intros H. change 32 with (inject_Z (2 ^ 5)). rewrite <- Zle_Qle.
  apply Z.pow_le_mono_r; lia.
Qed.


(** X2. For every attempt and every draw of [Math.random()] in [[0, 1)] the
    back-off is at least one second and at most thirty; from the sixth
    attempt (number 5) on it is exactly thirty seconds, whatever the draw. *)
Theorem calculateBackoff_bounds (n : nat) (rand : Q) :
  0 <= rand -> rand < 1 ->
  1000 <= calculateBackoff rand n /\
  calculateBackoff rand n <= 30000 /\
  ((5 <= n)%nat -> calculateBackoff rand n == 30000).
Proof.
  intros H0 H1. unfold calculateBackoff. cbv zeta.
  pose proof (pow2_ge_1 n) as Hp.
  destruct (Q.min_spec (inject_Z (2 ^ Z.of_nat n) * 1000 + rand * 500) 30000)
    as [[Hlt ->] | [Hle ->]].
  - split; [lra | split; [lra |]].
    intros H5. pose proof (pow2_ge_32 n H5). lra.
  - split; [lra | split; [lra | reflexivity]].
Qed.

Lemma calculateBackoff_bounds_witness :
  1000 <= calculateBackoff (1 # 2) 7 /\
  calculateBackoff (1 # 2) 7 <= 30000 /\
  calculateBackoff (1 # 2) 7 == 30000.
Proof.
  assert (H0 : 0 <= 1 # 2) by (vm_compute; discriminate).
  assert (H1 : (1 # 2) < 1) by reflexivity.
  destruct (calculateBackoff_bounds 7 (1 # 2) H0 H1) as (Ha & Hb & Hc).
  split; [exact Ha | split; [exact Hb | apply Hc; repeat constructor]].
Defined.

(** ** The shape of every run *)

Lemma after_attempts_config (outcomes : list FetchOutcome) :
  forall c, config (after_attempts c outcomes) = config c.
Proof.
  unfold after_attempts.
  induction outcomes as [| o l IH]; intros c; [reflexivity |].
  simpl. rewrite IH. apply attempt_once_config.
Qed.

(** The loop from attempt [k] with [n + 1] iterations left, the last of
    which is attempt [maxRetries]: it makes [m + 1] attempts for some
    [m <= n], sleeping between them; the first [m] fail with a retryable
    error; the result is that of the last one. *)
Lemma loop_shape (env : Env) (n : nat) :
  forall (k : nat) (c : HttpClient) (last : option Thrown) (done : list Effect),
    maxRetries (config c) = Z.of_nat (k + n) ->
    exists m : nat,
      (m <= n)%nat /\
      effects (request_loop env (S n) k c last done)
      = (done ++ exhausted_effects env k m)%list /\
      result (request_loop env (S n) k c last done)
      = fst (attempt_once c (fetch env (k + m))) /\
      client (request_loop env (S n) k c last done)
      = after_attempts c (map (fetch env) (seq k (S m))) /\
      (forall j, (k <= j < k + m)%nat ->
         exists error,
           fst (attempt_once c (fetch env j)) = inl error /\
           rethrown error = false) /\
      ((exists data, fst (attempt_once c (fetch env (k + m))) = inr data) \/
       (exists error, fst (attempt_once c (fetch env (k + m))) = inl error /\
                      rethrown error = true) \/
       m = n).
Proof.
  induction n as [| n IH]; intros k c last done Hmax.
  - exists 0%nat. rewrite Nat.add_0_r.
    destruct (fst (attempt_once c (fetch env k))) as [error | data] eqn:Ha.
    + destruct (rethrown error) eqn:Hr.
      * rewrite (loop_rethrows env 0 k c last done error Ha Hr). simpl.
        repeat split; auto; try lia.
      * rewrite (loop_gives_up env 0 k c last done error Ha Hr) by lia. simpl.
        try rewrite Ha. repeat split; auto; try lia.
    + rewrite (loop_returns env 0 k c last done data Ha). simpl.
      repeat split; eauto; try lia.
  - destruct (fst (attempt_once c (fetch env k))) as [error | data] eqn:Ha.
    + destruct (rethrown error) eqn:Hr.
      * exists 0%nat. rewrite Nat.add_0_r.
        rewrite (loop_rethrows env (S n) k c last done error Ha Hr). simpl.
        try rewrite Ha. repeat split; eauto; try lia.
      * rewrite (loop_retries env (S n) k c last done error Ha Hr) by lia.
        pose proof (attempt_once_config c (fetch env k)) as Hcfg.
        set (c1 := snd (attempt_once c (fetch env k))) in *.
        destruct (IH (S k) c1 (Some error)
                    (done ++ [Fetch k; Sleep (calculateBackoff (random env k) k)])%list)
          as (m & Hm & Heff & Hres & Hcl & Hbefore & Hlast).
        { rewrite Hcfg, Hmax. f_equal. lia. }
        assert (Hext : forall o, fst (attempt_once c1 o) = fst (attempt_once c o))
          by (intros o; apply attempt_once_fst_ext; exact Hcfg).
        exists (S m). replace (k + S m)%nat with (S k + m)%nat by lia.
        rewrite <- !Hext. repeat split.
        -- lia.
        -- rewrite Heff, <- app_assoc. reflexivity.
        -- exact Hres.
        -- rewrite Hcl. reflexivity.
        -- intros j Hj. destruct (Nat.eq_dec j k) as [-> | Hne].
           ++ exists error. auto.
           ++ destruct (Hbefore j) as [e [He Hre]]; [lia |].
              exists e. rewrite <- Hext. auto.
        -- destruct Hlast as [H | [H | H]]; auto.
    + exists 0%nat. rewrite Nat.add_0_r.
      rewrite (loop_returns env (S n) k c last done data Ha). simpl.
      try rewrite Ha. repeat split; eauto; try lia.
Qed.



Lemma after_attempts_headers (outcomes : list FetchOutcome) :
  forall c,
    after_attempts c outcomes
    = fold_left updateRateLimitInfo (response_headers outcomes) c.
Proof.
  unfold after_attempts, response_headers.
  induction outcomes as [| o l IH]; intros c; [reflexivity |].
  simpl. rewrite IH. destruct o as [r | name message]; simpl.
  - reflexivity.
  - f_equal. unfold attempt_once, executeRequest.
    destruct (name =? "AbortError"); reflexivity.
Qed.

(** X4. The client a request leaves behind is the client it started from
    with [updateRateLimitInfo] applied to the headers of every response the
    request received, in the order of the attempts, successful or not;
    attempts that ended without a response leave no trace in it. *)
Theorem request_client_after (env : Env) (c : HttpClient) :
  (0 <= maxRetries (config c))%Z ->
  exists m : nat,
    effects (request env c) = exhausted_effects env 0 m /\
    client (request env c)
    = fold_left updateRateLimitInfo
        (response_headers (map (fetch env) (seq 0 (S m)))) c.
Proof.
  intros Hmax. unfold request. rewrite iterations_of by exact Hmax.
  destruct (loop_shape env (Z.to_nat (maxRetries (config c))) 0 c None [])
    as (m & _ & Heff & _ & Hcl & _).
  { simpl. lia. }
  exists m. split; [exact Heff |].
  rewrite Hcl. apply after_attempts_headers.
Qed.

Lemma request_client_after_witness :
  exists m : nat,
    effects (request (Mock.env_of Mock.fails_twice) (Mock.client_with 3))
    = exhausted_effects (Mock.env_of Mock.fails_twice) 0 m /\
    client (request (Mock.env_of Mock.fails_twice) (Mock.client_with 3))
    = fold_left updateRateLimitInfo
        (response_headers
           (map (fetch (Mock.env_of Mock.fails_twice)) (seq 0 (S m))))
        (Mock.client_with 3).
Proof.
  apply (request_client_after (Mock.env_of Mock.fails_twice) (Mock.client_with 3)).
  simpl. lia.
Defined.


(** ** Sleeps *)




(** ** Error responses without a JSON object *)

Lemma errorBody_message (st : Z) (data : Js.value) :
  Js.get "message" (errorBody st data)
  = Some (Js.or (Js.get_opt data "message")
            (Js.Str ("HTTP " ++ Js.string_of_Z st))).
Proof. unfold errorBody. apply get_set_same. Qed.

(** X6. An error response whose body can be read always becomes a
    classified error with the status of the response and the code of the
    body, or [internal_error] when the body has none or a falsy one: the
    code is never falsy. A message of the body that is a non-empty string is
    the message of the error; without a message, or with a falsy one, the
    message is [HTTP <status>], and the default message of the factory is
    not reached. In particular a body that is not a JSON object (a text
    body, or a JSON array, string, number, boolean or [null]) gives the
    generic error with code [internal_error] and message [HTTP <status>]. *)
Theorem parseResponse_error_fields (r : Response) (data : Js.value) :
  ok r = false ->
  readBody r = inr data ->
  exists e : SendlyError,
    parseResponse r = inl (ThrowSendly e) /\
    statusCode_of e = Some (status r) /\
    code_of e = wire_code data /\
    Js.truthy (code_of e) = true /\
    (forall s : string,
        s <> "" ->
        Js.get_opt data "message" = Some (Js.Str s) ->
        message_of e = Js.Str s) /\
    (Js.truthy_opt (Js.get_opt data "message") = false ->
     message_of e = Js.Str ("HTTP " ++ Js.string_of_Z (status r))) /\
    ((forall kvs, data <> Js.Obj kvs) ->
     exists response : Js.object,
       e = BaseSendlyError
             (Js.Str ("HTTP " ++ Js.string_of_Z (status r)))
             (Js.Str "internal_error")
             (Some (status r))
             (Some response)).
Proof.
  intros Hok Hd. unfold parseResponse. rewrite Hd, Hok. simpl.
  eexists. split; [reflexivity |].
  destruct (fromResponse_fields (status r) (errorBody (status r) data))
    as (Hc & Hm & Hs & _).
  assert (Htm : Js.truthy (Js.or (Js.get_opt data "message")
                             (Js.Str ("HTTP " ++ Js.string_of_Z (status r))))
                = true) by (apply or_truthy; reflexivity).
  rewrite errorBody_error in Hc. fold (wire_code data) in Hc.
  rewrite (or_of_truthy _ _ (wire_code_truthy data)) in Hc.
  rewrite errorBody_message, (or_of_truthy _ _ Htm) in Hm.
  split; [exact Hs |]. split; [exact Hc |].
  split; [rewrite Hc; apply wire_code_truthy |].
  split; [| split].
  - intros s Hne Hget. rewrite Hm, Hget. apply or_of_truthy.
    destruct s; [contradiction | reflexivity].
  - intros Hf. rewrite Hm. apply or_of_falsy. exact Hf.
  - intros Hobj.
    assert (Hnone : forall k, Js.get_opt data k = None).
    { intros k. destruct data; try reflexivity. now destruct (Hobj kvs). }
    unfold fromResponse.
    rewrite errorBody_error, errorBody_message, !Hnone.
    eexists. reflexivity.
Qed.

Lemma parseResponse_error_fields_witness :
  exists e : SendlyError,
    parseResponse {| status := 502; headers := [("content-type", "text/html")];
                     json := None; text := "Bad Gateway" |}
    = inl (ThrowSendly e) /\
    statusCode_of e = Some 502%Z /\
    code_of e = Js.Str "internal_error" /\
    message_of e = Js.Str "HTTP 502".
Proof.
  destruct (parseResponse_error_fields
              {| status := 502; headers := [("content-type", "text/html")];
                 json := None; text := "Bad Gateway" |} (Js.Str "Bad Gateway")
              eq_refl eq_refl) as (e & Hp & Hs & Hc & _ & _ & Hm & _).
  exists e. repeat split; try assumption. exact (Hm eq_refl).
Defined.

(** ** Request headers *)

Lemma header_set_same (k v : string) (o : HeaderObject) :
  header k (set_header k v o) = Some v.
Proof.
  induction o as [| [k' v'] o IH]; simpl.
  - now rewrite String.eqb_refl.
  - destruct (k' =? k) eqn:E; simpl.
    + now rewrite String.eqb_refl.
    + now rewrite E.
Qed.

Lemma header_set_other (k k' v : string) (o : HeaderObject) :
  k <> k' -> header k' (set_header k v o) = header k' o.
Proof.
  intros Hne. induction o as [| [k0 v0] o IH]; simpl.
  - destruct (k =? k') eqn:E; [apply String.eqb_eq in E; contradiction | reflexivity].
  - destruct (k0 =? k) eqn:E0; simpl.
    + apply String.eqb_eq in E0. subst k0.
      destruct (k =? k') eqn:E; [apply String.eqb_eq in E; contradiction | reflexivity].
    + destruct (k0 =? k'); [reflexivity | exact IH].
Qed.

Lemma header_absent (k : string) (o : HeaderObject) :
  ~ In k (map fst o) -> header k o = None.
Proof.
  induction o as [| [k' v'] o IH]; simpl; [reflexivity |].
  intros H. destruct (k' =? k) eqn:E.
  - apply String.eqb_eq in E. tauto.
  - apply IH. tauto.
Qed.

Lemma header_spread_over (extra : HeaderObject) :
  forall (base : HeaderObject) (k : string),
    NoDup (map fst extra) ->
    header k (spread_over base extra)
    = match header k extra with
      | Some v => Some v
      | None => header k base
      end.
Proof.
  unfold spread_over.
  induction extra as [| [k1 v1] extra IH]; intros base k Hnd; [reflexivity |].
  simpl in *. inversion Hnd as [| ? ? Hnotin Hnd']; subst.
  rewrite IH by exact Hnd'.
  destruct (k1 =? k) eqn:E.
  - apply String.eqb_eq in E. subst k1.
    rewrite (header_absent k extra Hnotin). apply header_set_same.
  - apply String.eqb_neq in E.
    rewrite (header_set_other k1 k v1 base E). reflexivity.
Qed.

(** X7. The headers of a request: every header the caller supplies is sent
    with the caller's value, the bearer token included; every other header
    has its default, which is [Bearer <apiKey>] for [Authorization],
    [application/json] for [Content-Type] and [Accept], and the name of the
    SDK for [User-Agent]. Names are compared as they are spelt. *)
Theorem buildHeaders_override (c : HttpClient) (extra : HeaderObject) (k : string) :
  NoDup (map fst extra) ->
  header k (buildHeaders c (Some extra))
  = match header k extra with
    | Some v => Some v
    | None => header k (buildHeaders c None)
    end /\
  buildHeaders c None
  = [("Authorization", "Bearer " ++ apiKey (config c));
     ("Content-Type", "application/json");
     ("Accept", "application/json");
     ("User-Agent", "@sendly/node/1.0.0")].
Proof.
  intros Hnd. split; [| reflexivity].
  unfold buildHeaders. rewrite header_spread_over by exact Hnd. reflexivity.
Qed.

Lemma buildHeaders_override_witness :
  header "Authorization"
    (buildHeaders (Mock.client_with 3)
       (Some [("X-Request-Id", "42"); ("Authorization", "Bearer other")]))
  = Some "Bearer other" /\
  header "Accept"
    (buildHeaders (Mock.client_with 3)
       (Some [("X-Request-Id", "42"); ("Authorization", "Bearer other")]))
  = Some "application/json".
Proof.
  assert (Hnd : NoDup (map fst [("X-Request-Id", "42"); ("Authorization", "Bearer other")])).
  { simpl. repeat constructor; simpl; intuition discriminate. }
  split.
  - exact (proj1 (buildHeaders_override (Mock.client_with 3) _ "Authorization" Hnd)).
  - exact (proj1 (buildHeaders_override (Mock.client_with 3) _ "Accept" Hnd)).
Defined.

(** ** Test mode *)

(** X8. For a client that was constructed, test mode and live mode are the
    two cases of its key: [isTestMode] is [true] exactly for the keys
    [sk_test_v1_...] and [false] exactly for the keys [sk_live_v1_...]. *)
Theorem isTestMode_of_valid_key (P : Platform) (cfg : SendlyConfig) (h : HttpClient) :
  HttpClient_new cfg = inr h ->
  (isTestMode h = true <->
   exists token, apiKey (config h) = "sk_test_v1_" ++ token) /\
  (isTestMode h = false <->
   exists token, apiKey (config h) = "sk_live_v1_" ++ token).
Proof.
  intros Hnew.
  assert (Hkey : isValidApiKey (apiKey (config h)) = true).
  { pose proof (HttpClient_new_inr P cfg h Hnew) as ->. simpl.
    unfold HttpClient_new in Hnew. simpl in Hnew.
    destruct (isValidApiKey (cfg_apiKey cfg)); [reflexivity | discriminate]. }
  apply isValidApiKey_iff in Hkey.
  destruct Hkey as (env & token & [-> | ->] & Hk & _);
    unfold isTestMode; rewrite Hk; simpl.
  - repeat split; intros H;
      first [discriminate H | now exists token | reflexivity
            | destruct H as [t [=]]].
  - repeat split; intros H;
      first [discriminate H | now exists token | reflexivity
            | destruct H as [t [=]]].
Qed.

Lemma isTestMode_of_valid_key_witness :
  exists h : HttpClient,
    HttpClient_new (P := Reference.platform) (Mock.config_with None) = inr h /\
    isTestMode h = true.
Proof.
  eexists. split; [reflexivity |].
  apply (proj1 (isTestMode_of_valid_key Reference.platform (Mock.config_with None) _ eq_refl)).
  exists "abc". reflexivity.
Defined.

(** ** The two constructors agree *)

Lemma or_string_idem (s : option string) (d d' : string) :
  d <> "" -> or_string (Some (or_string s d)) d' = or_string s d.
Proof.
  intros Hd. unfold or_string at 1.
  destruct (or_string s d =? "") eqn:E; [| reflexivity].
  apply String.eqb_eq in E. unfold or_string in E.
  destruct s as [v |]; [| contradiction].
  destruct (v =? "") eqn:Ev; [contradiction |].
  apply String.eqb_neq in Ev. contradiction.
Qed.

Lemma or_number_idem (n : option Z) (d d' : Z) :
  d <> 0%Z -> or_number (Some (or_number n d)) d' = or_number n d.
Proof.
  intros Hd. unfold or_number at 1.
  destruct (or_number n d =? 0)%Z eqn:E; [| reflexivity].
  apply Z.eqb_eq in E. unfold or_number in E.
  destruct n as [v |]; [| contradiction].
  destruct (v =? 0)%Z eqn:Ev; [contradiction |].
  apply Z.eqb_neq in Ev. contradiction.
Qed.

(** X9. However a [Sendly] client is constructed, from a key or from a
    configuration object, the configuration of its HTTP client is the
    configuration the [Sendly] object reports: the second round of defaulting
    in [HttpClient] changes nothing, the default base URL of [HttpClient]
    (with its trailing slash) is never used, and no rate-limit snapshot
    exists yet. *)
Theorem Sendly_new_configs_agree (P : Platform) (a : SendlyArg) (s : Sendly) :
  Sendly_new a = inr s ->
  config (http s) = sendly_config s /\
  sendly_config s = Sendly_resolve a /\
  Sendly_getBaseUrl s = baseUrl (config (http s)) /\
  Sendly_getRateLimitInfo s = None.
Proof.
  unfold Sendly_new. intros H.
  destruct (HttpClient_new _) as [e | h] eqn:Hh; [discriminate |].
  injection H as <-. apply HttpClient_new_inr in Hh. subst h.
  assert (Hcfg : resolve
                   {| cfg_apiKey := apiKey (Sendly_resolve a);
                      cfg_baseUrl := Some (baseUrl (Sendly_resolve a));
                      cfg_timeout := Some (timeout (Sendly_resolve a));
                      cfg_maxRetries := Some (maxRetries (Sendly_resolve a)) |}
                 = Sendly_resolve a).
  { destruct a as [key | c]; [reflexivity |].
    unfold resolve, Sendly_resolve.
    cbn [apiKey baseUrl timeout maxRetries cfg_apiKey cfg_baseUrl cfg_timeout
         cfg_maxRetries nullish_number].
    rewrite or_string_idem by discriminate.
    rewrite or_number_idem by discriminate. reflexivity. }
  unfold Sendly_getBaseUrl, Sendly_getRateLimitInfo, getRateLimitInfo.
  cbn [http sendly_config config rateLimitInfo].
  rewrite Hcfg. repeat split; reflexivity.
Qed.

Lemma Sendly_new_configs_agree_witness :
  exists s : Sendly,
    Sendly_new (P := Reference.platform) (ApiKeyString Mock.KEY) = inr s /\
    config (http s) = sendly_config s /\
    Sendly_getBaseUrl s = "https://sendly.live/api".
Proof.
  eexists. split; [reflexivity |].
  destruct (Sendly_new_configs_agree Reference.platform (ApiKeyString Mock.KEY) _ eq_refl)
    as (H1 & _ & _ & _).
  split; [exact H1 | reflexivity].
Defined.

(** ** The class Webhooks *)

(** X10. [new Webhooks(secret)] throws exactly when the secret is absent or
    empty. An instance therefore has a non-empty secret, and for every
    non-empty payload it verifies the signature it produces itself, and
    [parse] with that signature never throws the signature error; for the
    empty payload [verify] is [false] whatever the signature. *)
Theorem Webhooks_roundtrip (P : Platform) (s : option string) :
  (missing s = true ->
   Webhooks_new s = inl (ThrowError "Webhook secret is required")) /\
  (forall w : Webhooks,
      Webhooks_new s = inr w ->
      missing s = false /\
      secret w <> "" /\
      (forall payload : string,
          payload <> "" ->
          Webhooks_verify w (Some payload) (Some (Webhooks_sign w payload))
          = inr true /\
          forall m, Webhooks_parse w (Some payload) (Some (Webhooks_sign w payload))
                    <> inl (ThrowWebhookSignatureError m)) /\
      (forall signature : option string,
          Webhooks_verify w (Some "") signature = inr false)).
Proof.
  unfold Webhooks_new. split.
  - intros ->. reflexivity.
  - intros w. destruct (missing s) eqn:Hs; [discriminate |].
    intros [= <-]. simpl.
    apply missing_false in Hs. destruct Hs as [v [-> Hv]]. simpl.
    split; [reflexivity | split; [exact Hv | split]].
    + intros payload Hp.
      assert (Hok : verifyWebhookSignature (Some payload)
                      (Some (generateWebhookSignature payload v)) (Some v)
                    = inr true).
      { apply verify_true_iff.
        repeat split; try (apply missing_false; eexists; split; [reflexivity |]);
          auto using signature_not_empty. }
      unfold Webhooks_verify, Webhooks_parse, Webhooks_sign. simpl.
      split; [exact Hok |].
      intros m. unfold parseWebhookEvent. rewrite Hok.
      destruct (JSON_parse (text_of (Some payload))) as [[| ? | ? | ? | ? | ?] |];
        try discriminate;
        match goal with
        | |- context [lacks_field ?e] => destruct (lacks_field e); discriminate
        end.
    + intros signature. reflexivity.
Qed.

Lemma Webhooks_roundtrip_witness :
  exists w : Webhooks,
    Webhooks_new (Some Mock.secret) = inr w /\
    Webhooks_verify (P := Reference.platform) w (Some Mock.event_text)
      (Some (Webhooks_sign (P := Reference.platform) w Mock.event_text))
    = inr true.
Proof.
  eexists. split; [reflexivity |].
  destruct (proj2 (Webhooks_roundtrip Reference.platform (Some Mock.secret)) _ eq_refl)
    as (_ & _ & Hrt & _).
  apply (Hrt Mock.event_text). discriminate.
Defined.

(** ** Country of a phone number *)

Lemma prefix_comparable (a b : string) :
  forall s, prefix a s = true -> prefix b s = true ->
            prefix a b = true \/ prefix b a = true.
Proof.
  revert b. induction a as [| x a IH]; intros b s Ha Hb;
    [left; destruct b; reflexivity |].
  destruct b as [| y b]; [right; reflexivity |].
  destruct s as [| z s]; [discriminate |].
  simpl in *.
  destruct (ascii_dec x z) as [-> |]; [| discriminate].
  destruct (ascii_dec y z) as [-> |]; [| discriminate].
  destruct (ascii_dec z z) as [_ | Hn]; [| now destruct Hn].
  apply (IH b s); assumption.
Qed.

Lemma find_none_of (A : Type) (f : A -> bool) (l : list A) :
  (forall x, In x l -> f x = false) -> find f l = None.
Proof.
  induction l as [| x l IH]; intros H; [reflexivity |].
  simpl. rewrite (H x) by now left. apply IH. intros y Hy. apply H. now right.
Qed.

Lemma lookup_prefix_in (p c : string) (t : list (string * string)) :
  lookup_prefix p t = Some c -> In (p, c) t.
Proof.
  induction t as [| [k v] t IH]; simpl; [discriminate |].
  destruct (k =? p) eqn:E.
  - apply String.eqb_eq in E. intros [= ->]. subst. now left.
  - intros H. right. auto.
Qed.

(** The facts about the table that are checked by running through it: no
    prefix begins another, none starts with the digit 1, every prefix is
    tried and leads to its own country, and every country is a supported
    one, two capital letters, and not Canada. *)
Lemma countryPrefixes_checked :
  forallb (fun p => forallb (fun q => negb (prefix p q) || (p =? q)) sortedPrefixes)
    sortedPrefixes = true /\
  forallb (fun p => negb (prefix "1" p) && negb (p =? "")) sortedPrefixes = true /\
  forallb (fun kv => existsb (String.eqb (fst kv)) sortedPrefixes &&
                     match lookup_prefix (fst kv) countryPrefixes with
                     | Some c => c =? snd kv
                     | None => false
                     end) countryPrefixes = true /\
  forallb (fun c => existsb (String.eqb c) ALL_SUPPORTED_COUNTRIES &&
                    negb (c =? "CA") &&
                    Js.forall_chars Js.is_upper c)
    ("US" :: map snd countryPrefixes) = true.
Proof. vm_compute. repeat split. Qed.

Lemma getCountryFromPhone_value (phone c : string) :
  getCountryFromPhone phone = Some c ->
  In c ("US" :: map snd countryPrefixes).
Proof.
  unfold getCountryFromPhone.
  destruct (prefix "1" (strip_plus phone) && _); [intros [= <-]; now left |].
  destruct (find _ sortedPrefixes) as [p |]; [| discriminate].
  intros H. apply lookup_prefix_in in H. right.
  apply in_map_iff. exists (p, c). auto.
Qed.

(** X11. Every country [getCountryFromPhone] returns is one of the
    supported countries, written as two capital letters, so that
    [isCountrySupported] accepts it (for any [toUpperCase] that leaves
    capital letters alone); and it is never Canada, although Canada is a
    supported country: a number with the prefix 1 and eleven digits is
    always reported as US. *)
Theorem getCountryFromPhone_supported (phone c : string) :
  getCountryFromPhone phone = Some c ->
  In c ALL_SUPPORTED_COUNTRIES /\
  c <> "CA" /\
  In "CA" ALL_SUPPORTED_COUNTRIES /\
  forall toUpperCase : string -> string,
    (forall s, Js.forall_chars Js.is_upper s = true -> toUpperCase s = s) ->
    isCountrySupported toUpperCase c = true.
Proof.
  intros H. apply getCountryFromPhone_value in H.
  destruct countryPrefixes_checked as (_ & _ & _ & Hall).
  rewrite forallb_forall in Hall. specialize (Hall c H).
  apply andb_true_iff in Hall. destruct Hall as [Hall Hup].
  apply andb_true_iff in Hall. destruct Hall as [Hin Hca].
  assert (Hin' : In c ALL_SUPPORTED_COUNTRIES).
  { apply existsb_exists in Hin. destruct Hin as [x [Hx Heq]].
    apply String.eqb_eq in Heq. now subst. }
  split; [exact Hin' |]. split.
  - apply negb_true_iff, String.eqb_neq in Hca. exact Hca.
  - split; [simpl; tauto |].
    intros toUpperCase Hfix. unfold isCountrySupported.
    rewrite (Hfix c Hup). exact Hin.
Qed.

Lemma getCountryFromPhone_supported_witness :
  getCountryFromPhone "+14165550100" = Some "US" /\
  In "US" ALL_SUPPORTED_COUNTRIES /\
  isCountrySupported to_upper_ascii "US" = true.
Proof.
  split; [reflexivity |].
  destruct (getCountryFromPhone_supported "+14165550100" "US" eq_refl)
    as (Hin & _ & _ & Hsup).
  split; [exact Hin |]. apply Hsup.
  intros s Hs. unfold to_upper_ascii.
  rewrite <- (string_of_list_ascii_of_string s) at 2. f_equal.
  unfold Js.forall_chars in Hs. rewrite forallb_forall in Hs.
  rewrite <- (map_id (list_ascii_of_string s)) at 2.
  apply map_ext_in. intros a Ha. specialize (Hs a Ha).
  destruct (Js.is_lower a) eqn:El; [| reflexivity].
  unfold Js.is_upper, Js.is_lower, Js.in_range in *.
  apply andb_true_iff in Hs, El.
  destruct Hs as [_ Hs], El as [El _].
  apply Nat.leb_le in Hs, El. lia.
Defined.

(** X12. The table of prefixes is free of prefixes of its own, so the order
    in which they are tried does not matter: a number whose digits begin
    with a prefix of the table gets the country of that prefix, whatever
    follows. No prefix of the table starts with 1: a number that starts with
    1 is US when it has eleven digits and has no country otherwise. A
    leading plus sign is ignored. *)
Theorem getCountryFromPhone_by_prefix (phone : string) :
  (forall p c : string,
      In (p, c) countryPrefixes ->
      prefix p (strip_plus phone) = true ->
      getCountryFromPhone phone = Some c) /\
  (prefix "1" (strip_plus phone) = true ->
   getCountryFromPhone phone
   = if (utf16_length (strip_plus phone) =? 11)%nat then Some "US" else None) /\
  (forall digits : string,
      prefix "+" digits = false ->
      getCountryFromPhone ("+" ++ digits) = getCountryFromPhone digits).
Proof.
  destruct countryPrefixes_checked as (Hfree & Hone & Htable & _).
  rewrite forallb_forall in Hfree, Hone, Htable.
  assert (Hno1 : forall s, prefix "1" s = true ->
                           find (fun p => prefix p s) sortedPrefixes = None).
  { intros s Hs. apply find_none_of. intros p Hp.
    specialize (Hone p Hp). apply andb_true_iff in Hone.
    destruct Hone as [H1 Hne]. apply negb_true_iff in H1, Hne.
    destruct (prefix p s) eqn:E; [| reflexivity].
    destruct (prefix_comparable "1" p s Hs E) as [H | H]; [congruence |].
    destruct p as [| x p]; [discriminate |].
    simpl in H. destruct (ascii_dec x "1") as [-> |]; [| discriminate].
    destruct p as [| y p]; [| discriminate H].
    vm_compute in H1. discriminate. }
  split; [| split].
  - intros p c Hin Hp. unfold getCountryFromPhone.
    specialize (Htable (p, c) Hin). cbn [fst snd] in Htable.
    apply andb_true_iff in Htable. destruct Htable as [Hsorted Hlook].
    apply existsb_exists in Hsorted. destruct Hsorted as [p' [Hp' Heq]].
    apply String.eqb_eq in Heq. subst p'.
    assert (H1 : prefix "1" (strip_plus phone) = false).
    { destruct (prefix "1" (strip_plus phone)) eqn:E; [| reflexivity].
      pose proof (Hno1 _ E) as Hnone.
      pose proof (find_none _ _ Hnone p Hp') as Hf. simpl in Hf. congruence. }
    rewrite H1. cbn [andb].
    destruct (find (fun q => prefix q (strip_plus phone)) sortedPrefixes)
      as [q |] eqn:Ef.
    + apply find_some in Ef. destruct Ef as [Hq Hqp].
      assert (q = p) as ->.
      { destruct (prefix_comparable q p _ Hqp Hp) as [H | H].
        - pose proof (Hfree q Hq) as Hf. rewrite forallb_forall in Hf.
          specialize (Hf p Hp'). rewrite H in Hf. simpl in Hf.
          now apply String.eqb_eq in Hf.
        - pose proof (Hfree p Hp') as Hf. rewrite forallb_forall in Hf.
          specialize (Hf q Hq). rewrite H in Hf. simpl in Hf.
          apply String.eqb_eq in Hf. now subst. }
      destruct (lookup_prefix p countryPrefixes) as [c' |]; [| discriminate].
      apply String.eqb_eq in Hlook. now subst.
    + pose proof (find_none _ _ Ef p Hp') as Hf. simpl in Hf. congruence.
  - intros H1. unfold getCountryFromPhone. rewrite H1. cbn [andb].
    destruct (utf16_length (strip_plus phone) =? 11)%nat; [reflexivity |].
    now rewrite (Hno1 _ H1).
  - intros digits Hd. unfold getCountryFromPhone.
    assert (Hs : strip_plus digits = digits).
    { destruct digits as [| x d]; [reflexivity |].
      destruct x as [[] [] [] [] [] [] [] []]; try reflexivity.
      cbn in Hd. destruct d; discriminate Hd. }
    rewrite Hs. reflexivity.
Qed.

Lemma getCountryFromPhone_by_prefix_witness :
  In ("358", "FI") countryPrefixes /\
  prefix "358" (strip_plus "+358401234567") = true /\
  getCountryFromPhone "+358401234567" = Some "FI".
Proof.
  assert (Hin : In ("358", "FI") countryPrefixes).
  { unfold countryPrefixes. do 17 right. now left. }
  split; [exact Hin | split; [reflexivity |]].
  exact (proj1 (getCountryFromPhone_by_prefix "+358401234567") "358" "FI" Hin eq_refl).
Defined.

(** ** Segments *)

(** X13. [calculateSegments] never returns less than one segment; it
    returns one exactly for the texts of at most 160 characters, or 70 when
    a character outside ASCII occurs; for a longer text it returns the least
    number of parts of 153 characters (67 with a character outside ASCII)
    that hold the text. The count in the warning of [validateMessageText],
    which divides by 160, is never greater than it. *)
Theorem calculateSegments_least (text : string) :
  let single := if isUnicode text then 70%nat else 160%nat in
  let part := if isUnicode text then 67%nat else 153%nat in
  (1 <= calculateSegments text)%nat /\
  (calculateSegments text = 1%nat <-> (utf16_length text <= single)%nat) /\
  ((single < utf16_length text)%nat ->
   (utf16_length text <= calculateSegments text * part)%nat /\
   ((calculateSegments text - 1) * part < utf16_length text)%nat) /\
  ((160 < utf16_length text)%nat ->
   (ceil_div (utf16_length text) 160 <= calculateSegments text)%nat).
Proof.
  cbv zeta. unfold calculateSegments, ceil_div.
  set (n := utf16_length text).
  destruct (isUnicode text).
  - destruct (n <=? 70)%nat eqn:E;
      [apply Nat.leb_le in E | apply Nat.leb_gt in E].
    + repeat split; intros; try lia.
    + pose proof (Nat.div_mod (n + 67 - 1) 67 ltac:(lia)).
      pose proof (Nat.mod_upper_bound (n + 67 - 1) 67 ltac:(lia)).
      pose proof (Nat.div_mod (n + 160 - 1) 160 ltac:(lia)).
      pose proof (Nat.mod_upper_bound (n + 160 - 1) 160 ltac:(lia)).
      repeat split; intros; try lia.
  - destruct (n <=? 160)%nat eqn:E;
      [apply Nat.leb_le in E | apply Nat.leb_gt in E].
    + repeat split; intros; try lia.
    + pose proof (Nat.div_mod (n + 153 - 1) 153 ltac:(lia)).
      pose proof (Nat.mod_upper_bound (n + 153 - 1) 153 ltac:(lia)).
      pose proof (Nat.div_mod (n + 160 - 1) 160 ltac:(lia)).
      pose proof (Nat.mod_upper_bound (n + 160 - 1) 160 ltac:(lia)).
      repeat split; intros; try lia.
Qed.

(** ** What the validators accept *)

Lemma validatePhoneNumber_ok (phone : string) :
  (is_e164 phone = true -> validatePhoneNumber phone = inr tt) /\
  (is_e164 phone = false ->
   exists e, validatePhoneNumber phone = inl e /\ is_validation_error e).
Proof.
  unfold validatePhoneNumber, is_validation_error. split; intros H.
  - destruct (phone =? "") eqn:E.
    + apply String.eqb_eq in E. subst. discriminate.
    + now rewrite H.
  - destruct (phone =? ""); [eauto |]. rewrite H. simpl. eauto.
Qed.

Lemma validateSenderId_ok (from : option string) :
  (valid_sender from = true ->
   (if missing from then inr tt else validateSenderId from) = inr tt) /\
  (valid_sender from = false ->
   exists e, (if missing from then inr tt else validateSenderId from) = inl e /\
             validateSenderId from = inl e /\
             is_validation_error e).
Proof.
  unfold valid_sender, validateSenderId.
  destruct (missing from); simpl; [split; [reflexivity | discriminate] |].
  destruct (prefix "+" (text_of from)).
  - destruct (validatePhoneNumber_ok (text_of from)) as [Hy Hn].
    split; [exact Hy |]. intros H. destruct (Hn H) as [e [He Hv]]. eauto.
  - split; intros H; rewrite H; simpl; [reflexivity |].
    unfold is_validation_error. eauto.
Qed.

Lemma validateMessageText_ok (text : string) :
  (text <> "" -> fst (validateMessageText text) = inr tt) /\
  (text = "" ->
   validateMessageText text
   = (inl (validation_error "Message text is required"), [])).
Proof.
  unfold validateMessageText. split.
  - intros H. apply String.eqb_neq in H. rewrite H.
    destruct (1600 <? utf16_length text)%nat; reflexivity.
  - intros ->. reflexivity.
Qed.

Lemma prefix_char (a d : ascii) (rest : string) :
  prefix (String a "") (String d rest) = Ascii.eqb a d.
Proof.
  cbn [prefix]. destruct (ascii_dec a d) as [-> | Hne].
  - rewrite Ascii.eqb_refl. destruct rest; reflexivity.
  - symmetry. now apply Ascii.eqb_neq.
Qed.

Lemma in_range_spec (lo hi : nat) (c : ascii) :
  Js.in_range lo hi c = true <-> (lo <= nat_of_ascii c <= hi)%nat.
Proof.
  unfold Js.in_range. cbv zeta. rewrite andb_true_iff, !Nat.leb_le. tauto.
Qed.

(** The shape of an E.164 number. *)
Lemma is_e164_iff (phone : string) :
  is_e164 phone = true <->
  exists digits : string,
    phone = "+" ++ digits /\
    Js.forall_chars Js.is_digit digits = true /\
    prefix "0" digits = false /\
    (2 <= String.length digits <= 15)%nat.
Proof.
  split.
  - destruct phone as [| p rest]; [discriminate |].
    destruct (Ascii.eqb p "+") eqn:Ep.
    + apply Ascii.eqb_eq in Ep. subst p.
      destruct rest as [| d rest]; [discriminate |].
      cbn [is_e164]. rewrite !andb_true_iff. intros [[[Hd Hr] Hlo] Hhi].
      apply Nat.leb_le in Hlo, Hhi. apply in_range_spec in Hd.
      exists (String d rest). split; [reflexivity |]. split; [| split].
      * unfold Js.forall_chars in *. cbn [list_ascii_of_string forallb].
        rewrite Hr, andb_true_r. apply in_range_spec. lia.
      * rewrite prefix_char. apply Ascii.eqb_neq. intros <-.
        cbn in Hd. lia.
      * cbn [String.length]. lia.
    + intros H. exfalso.
      destruct p as [[] [] [] [] [] [] [] []]; try discriminate H.
      discriminate Ep.
  - intros (digits & -> & Hdig & H0 & Hlen).
    destruct digits as [| d rest]; [cbn in Hlen; lia |].
    cbn [append is_e164]. cbn [String.length] in Hlen.
    unfold Js.forall_chars in *. cbn [list_ascii_of_string forallb] in Hdig.
    apply andb_true_iff in Hdig. destruct Hdig as [Hd Hr].
    rewrite prefix_char in H0. apply Ascii.eqb_neq in H0.
    apply in_range_spec in Hd.
    rewrite Hr. rewrite !andb_true_iff. repeat split.
    + apply in_range_spec.
      assert (nat_of_ascii d <> 48%nat).
      { intros Hz. apply H0. rewrite <- (ascii_nat_embedding d), Hz. reflexivity. }
      lia.
    + apply Nat.leb_le. lia.
    + apply Nat.leb_le. lia.
Qed.

(** ** messages.send *)

(** X14. [messages.send] makes its request exactly when the recipient is
    an E.164 number (a plus sign and 2 to 15 digits, the first of them not
    0), the text is not empty, and the sender is absent, empty, an E.164
    number or 2 to 11 letters and digits. Otherwise it throws a validation
    error, without a status, and neither calls the transport nor touches the
    client. A text of any length passes. The body carries [from] only when
    there is a sender. *)
Theorem Messages_send_checks (server : Server) (c : HttpClient)
  (r : SendMessageRequest) :
  (is_e164 (msg_to r) = true -> msg_text r <> "" ->
   valid_sender (msg_from r) = true ->
   run (Messages_send server c r) = request (server (send_options r)) c) /\
  (is_e164 (msg_to r) = false \/ msg_text r = "" \/
   valid_sender (msg_from r) = false ->
   exists e, stopped_with (Messages_send server c r) c e /\
             is_validation_error e) /\
  (forall phone,
      is_e164 phone = true <->
      exists digits : string,
        phone = "+" ++ digits /\
        Js.forall_chars Js.is_digit digits = true /\
        prefix "0" digits = false /\
        (2 <= String.length digits <= 15)%nat) /\
  (exists b, body (send_options r) = Some b /\
             Js.get "from" b
             = if missing (msg_from r) then None
               else Some (Js.Str (text_of (msg_from r)))).
Proof.
  unfold Messages_send, stopped_with, stop, http_request.
  destruct (validatePhoneNumber_ok (msg_to r)) as [Hpy Hpn].
  destruct (validateMessageText_ok (msg_text r)) as [Hty Htn].
  destruct (validateSenderId_ok (msg_from r)) as [Hsy Hsn].
  split; [| split; [| split]].
  - intros Hp Ht Hs. rewrite (Hpy Hp).
    specialize (Hty Ht).
    destruct (validateMessageText (msg_text r)) as [checked w].
    simpl in Hty. subst checked. rewrite (Hsy Hs). reflexivity.
  - intros H.
    destruct (is_e164 (msg_to r)) eqn:Hp.
    + rewrite (Hpy eq_refl).
      destruct (String.eqb_spec (msg_text r) "") as [Ht | Ht].
      * rewrite (Htn Ht). unfold is_validation_error. cbn [run]. eauto.
      * specialize (Hty Ht).
        destruct (validateMessageText (msg_text r)) as [checked w].
        simpl in Hty. subst checked.
        destruct H as [H | [H | H]]; [discriminate | contradiction |].
        destruct (Hsn H) as [e [He [_ Hv]]]. rewrite He. cbn [run]. eauto.
    + destruct (Hpn eq_refl) as [e [He Hv]]. rewrite He. cbn [run]. eauto.
  - apply is_e164_iff.
  - unfold send_options, from_entry. cbn [body].
    eexists. split; [reflexivity |].
    destruct (missing (msg_from r)); reflexivity.
Qed.

Lemma Messages_send_checks_witness :
  run (Messages_send (Sample.server_of (Mock.always (Mock.success [])))
         (Mock.client_with 3) Sample.hello)
  = request (Sample.server_of (Mock.always (Mock.success []))
               (send_options Sample.hello))
      (Mock.client_with 3).
Proof.
  apply (proj1 (Messages_send_checks _ (Mock.client_with 3) Sample.hello));
    [reflexivity | discriminate | reflexivity].
Defined.

(** ** messages.sendBatch *)

Lemma validate_items_ok (items : list BatchMessage) :
  forall w,
    (forallb valid_item items = true -> fst (validate_items items w) = inr tt) /\
    (forallb valid_item items = false ->
     exists e, fst (validate_items items w) = inl e /\ is_validation_error e).
Proof.
  induction items as [| m items IH]; intros w; simpl.
  - split; [reflexivity | discriminate].
  - unfold valid_item at 1 3.
    destruct (validatePhoneNumber_ok (item_to m)) as [Hpy Hpn].
    destruct (validateMessageText_ok (item_text m)) as [Hty Htn].
    destruct (is_e164 (item_to m)) eqn:Hp.
    + rewrite (Hpy eq_refl).
      destruct (String.eqb_spec (item_text m) "") as [Ht | Ht].
      * rewrite (Htn Ht). simpl. split; [discriminate |].
        intros _. unfold is_validation_error. eauto.
      * specialize (Hty Ht).
        destruct (validateMessageText (item_text m)) as [checked w'].
        simpl in Hty. subst checked. simpl. apply IH.
    + destruct (Hpn eq_refl) as [e [He Hv]]. rewrite He. simpl.
      split; [discriminate | eauto].
Qed.

(** X15. [messages.sendBatch] makes its request exactly when the batch has
    between 1 and 1000 messages, every message has an E.164 recipient and a
    text that is not empty, and the sender is one [send] would let through.
    An empty batch and a batch of more than 1000 messages throw a plain
    [Error]; an invalid message or sender throws a validation error; in all
    these cases the transport is not called and the client is as before. *)
Theorem Messages_sendBatch_checks (server : Server) (c : HttpClient)
  (r : BatchMessageRequest) :
  ((1 <= List.length (batch_messages r) <= 1000)%nat ->
   forallb valid_item (batch_messages r) = true ->
   valid_sender (batch_from r) = true ->
   run (Messages_sendBatch server c r) = request (server (batch_options r)) c) /\
  (batch_messages r = [] ->
   stopped_with (Messages_sendBatch server c r) c
     (ThrowError "messages must be a non-empty array")) /\
  ((1000 < List.length (batch_messages r))%nat ->
   stopped_with (Messages_sendBatch server c r) c
     (ThrowError "Maximum 1000 messages per batch")) /\
  ((1 <= List.length (batch_messages r) <= 1000)%nat ->
   forallb valid_item (batch_messages r) = false \/
   valid_sender (batch_from r) = false ->
   exists e, stopped_with (Messages_sendBatch server c r) c e /\
             is_validation_error e).
Proof.
  unfold Messages_sendBatch, stopped_with, stop, http_request.
  destruct (validate_items_ok (batch_messages r) []) as [Hiy Hin].
  destruct (validateSenderId_ok (batch_from r)) as [Hsy Hsn].
  split; [| split; [| split]].
  - intros Hlen Hitems Hs.
    destruct (Nat.eqb_spec (List.length (batch_messages r)) 0); [lia |].
    destruct (Nat.ltb_spec 1000 (List.length (batch_messages r))); [lia |].
    specialize (Hiy Hitems).
    destruct (validate_items (batch_messages r) []) as [checked w].
    simpl in Hiy. subst checked. rewrite (Hsy Hs). reflexivity.
  - intros ->. reflexivity.
  - intros Hlen.
    destruct (Nat.eqb_spec (List.length (batch_messages r)) 0); [lia |].
    destruct (Nat.ltb_spec 1000 (List.length (batch_messages r))); [| lia].
    reflexivity.
  - intros Hlen H.
    destruct (Nat.eqb_spec (List.length (batch_messages r)) 0); [lia |].
    destruct (Nat.ltb_spec 1000 (List.length (batch_messages r))); [lia |].
    destruct (forallb valid_item (batch_messages r)) eqn:Hitems.
    + specialize (Hiy eq_refl).
      destruct (validate_items (batch_messages r) []) as [checked w].
      simpl in Hiy. subst checked.
      destruct H as [H | H]; [discriminate |].
      destruct (Hsn H) as [e [He [_ Hv]]]. rewrite He. cbn [run]. eauto.
    + destruct (Hin eq_refl) as [e [He Hv]].
      destruct (validate_items (batch_messages r) []) as [checked w].
      simpl in He. subst checked. cbn [run]. eauto.
Qed.

Lemma Messages_sendBatch_checks_witness :
  run (Messages_sendBatch (Sample.server_of (Mock.always (Mock.success [])))
         (Mock.client_with 3)
         {| batch_messages := [{| item_to := "+15551234567"; item_text := "Hi" |};
                               {| item_to := "+447911123456"; item_text := "Hi" |}];
            batch_from := None |})
  = request
      (Sample.server_of (Mock.always (Mock.success []))
         (batch_options
            {| batch_messages := [{| item_to := "+15551234567"; item_text := "Hi" |};
                                  {| item_to := "+447911123456"; item_text := "Hi" |}];
               batch_from := None |}))
      (Mock.client_with 3).
Proof.
  apply (proj1 (Messages_sendBatch_checks _ (Mock.client_with 3) _));
    [simpl; lia | reflexivity | reflexivity].
Defined.

(** ** messages.list, listScheduled, listBatches *)

Lemma isInteger_iff (q : Q) :
  isInteger q = true <-> exists z : Z, q == inject_Z z.
Proof.
  unfold isInteger. rewrite Z.eqb_eq. destruct q as [n d]. simpl. split.
  - intros H. exists (n / Zpos d)%Z. unfold Qeq. simpl.
    pose proof (Z.div_mod n (Zpos d) ltac:(lia)). lia.
  - intros [z Hz]. unfold Qeq in Hz. simpl in Hz.
    rewrite Z.mul_1_r in Hz. rewrite Hz. apply Z.mod_mul. lia.
Qed.

(** X16. The three list methods, [list], [listScheduled] and [listBatches],
    make their request exactly when [limit] is absent or an integer from 1 to
    100; a limit that is not an integer, or is 0, negative or above 100,
    throws a validation error before any request. The query is passed on as
    given. *)
Theorem Messages_list_checks (p : string) (server : Server) (c : HttpClient)
  (o : ListOptions) :
  (opt_limit o = None \/
   (exists (l : Q) (z : Z),
       opt_limit o = Some l /\ l == inject_Z z /\ (1 <= z <= 100)%Z) ->
   run (listing p server c o) = request (server (list_options p o)) c) /\
  ((forall l, opt_limit o = Some l ->
              ~ exists z : Z, l == inject_Z z /\ (1 <= z <= 100)%Z) ->
   opt_limit o <> None ->
   exists e, stopped_with (listing p server c o) c e /\ is_validation_error e) /\
  (Messages_list = listing "/v1/messages" /\
   Messages_listScheduled = listing "/v1/messages/scheduled" /\
   Messages_listBatches = listing "/v1/messages/batches").
Proof.
  unfold listing, stopped_with, stop, http_request, validateLimit.
  split; [| split; [| repeat split]].
  - intros [-> | (l & z & -> & Hz & Hr)]; [reflexivity |].
    assert (Hi : isInteger l = true) by (apply isInteger_iff; eauto).
    rewrite Hi. simpl.
    assert (H1 : Qle_bool 1 l = true) by (apply Qle_bool_iff; rewrite Hz;
      change 1 with (inject_Z 1); rewrite <- Zle_Qle; lia).
    assert (H2 : Qle_bool l 100 = true) by (apply Qle_bool_iff; rewrite Hz;
      change 100 with (inject_Z 100); rewrite <- Zle_Qle; lia).
    rewrite H1, H2. reflexivity.
  - intros Hbad Hsome.
    destruct (opt_limit o) as [l |]; [| contradiction].
    specialize (Hbad l eq_refl).
    destruct (isInteger l) eqn:Hi; simpl.
    + destruct (Qle_bool 1 l) eqn:H1; simpl;
        [| unfold is_validation_error; eauto].
      destruct (Qle_bool l 100) eqn:H2; simpl;
        [| unfold is_validation_error; eauto].
      exfalso. apply Hbad.
      apply isInteger_iff in Hi. destruct Hi as [z Hz]. exists z.
      split; [exact Hz |].
      apply Qle_bool_iff in H1, H2. rewrite Hz in H1, H2.
      change 1 with (inject_Z 1) in H1. change 100 with (inject_Z 100) in H2.
      rewrite <- Zle_Qle in H1, H2. lia.
    + unfold is_validation_error. eauto.
Qed.

Lemma Messages_list_checks_witness :
  run (Messages_list (Sample.paged 5) (Mock.client_with 3)
         {| opt_limit := Some 2; opt_offset := None; opt_status := None |})
  = request
      (Sample.paged 5
         (list_options "/v1/messages"
            {| opt_limit := Some 2; opt_offset := None; opt_status := None |}))
      (Mock.client_with 3).
Proof.
  apply (proj1 (Messages_list_checks "/v1/messages" (Sample.paged 5)
                  (Mock.client_with 3)
                  {| opt_limit := Some 2; opt_offset := None; opt_status := None |})).
  right. exists 2, 2%Z. repeat split; try reflexivity; lia.
Defined.

(** ** Identifiers in paths *)

Lemma encodeURIComponent_unreserved (s : string) :
  Js.forall_chars is_unreserved s = true -> encodeURIComponent s = s.
Proof.
  unfold Js.forall_chars. induction s as [| c s IH]; [reflexivity |].
  cbn [list_ascii_of_string forallb encodeURIComponent].
  rewrite andb_true_iff. intros [Hc Hs]. rewrite Hc, (IH Hs). reflexivity.
Qed.

Lemma is_hex_unreserved (c : ascii) : is_hex c = true -> is_unreserved c = true.
Proof.
  unfold is_hex, is_unreserved, is_alnum, Js.is_lower, Js.is_upper, Js.is_digit.
  rewrite !orb_true_iff, !in_range_spec. intros H.
  left. lia.
Qed.

Lemma is_alnum_unreserved (c : ascii) : is_alnum c = true -> is_unreserved c = true.
Proof. unfold is_unreserved. intros ->. reflexivity. Qed.

Lemma uuid_from_unreserved (s : string) :
  forall i, uuid_from i s = true -> Js.forall_chars is_unreserved s = true.
Proof.
  unfold Js.forall_chars. induction s as [| c s IH]; intros i; [reflexivity |].
  cbn [uuid_from list_ascii_of_string forallb].
  rewrite !andb_true_iff. intros [Hc Hs]. split; [| exact (IH _ Hs)].
  destruct ((i =? 8)%nat || (i =? 13)%nat || (i =? 18)%nat || (i =? 23)%nat).
  - apply Ascii.eqb_eq in Hc. subst c. reflexivity.
  - apply is_hex_unreserved. exact Hc.
Qed.

Lemma forall_chars_app (f : ascii -> bool) (a b : string) :
  Js.forall_chars f (a ++ b) = Js.forall_chars f a && Js.forall_chars f b.
Proof.
  unfold Js.forall_chars. induction a as [| c a IH]; [reflexivity |].
  cbn [append list_ascii_of_string forallb]. rewrite IH. apply andb_assoc.
Qed.

Lemma is_prefixed_id_unreserved (id : string) :
  is_prefixed_id id = true -> Js.forall_chars is_unreserved id = true.
Proof.
  unfold is_prefixed_id.
  assert (Hrest : forall rest, Js.forall_chars is_alnum rest = true ->
                               Js.forall_chars is_unreserved rest = true).
  { unfold Js.forall_chars. intros rest. rewrite !forallb_forall.
    intros H x Hx. apply is_alnum_unreserved. auto. }
  destruct (Js.strip_prefix "msg_" id) as [rest |] eqn:E1.
  - apply strip_prefix_spec in E1. subst id. rewrite andb_true_iff. intros [_ H].
    rewrite forall_chars_app, (Hrest _ H). reflexivity.
  - destruct (Js.strip_prefix "schd_" id) as [rest |] eqn:E2.
    + apply strip_prefix_spec in E2. subst id. rewrite andb_true_iff. intros [_ H].
      rewrite forall_chars_app, (Hrest _ H). reflexivity.
    + destruct (Js.strip_prefix "batch_" id) as [rest |] eqn:E3; [| discriminate].
      apply strip_prefix_spec in E3. subst id. rewrite andb_true_iff. intros [_ H].
      rewrite forall_chars_app, (Hrest _ H). reflexivity.
Qed.

(** X17. An identifier that [validateMessageId] accepts (a UUID, or [msg_],
    [schd_] or [batch_] followed by letters and digits) is made of letters,
    digits, hyphens and underscores only, so [encodeURIComponent] leaves it
    as it is: [get], [getScheduled] and [cancelScheduled] request the path
    that ends in the identifier itself. An identifier that is rejected, the
    empty one included, throws a validation error before any request. *)
Theorem Messages_by_id_path (m p : string) (server : Server) (c : HttpClient)
  (id : string) :
  (validateMessageId id = inr tt ->
   encodeURIComponent id = id /\
   run (by_id m p server c id)
   = request (server {| method := m; path := p ++ id; query := []; body := None |}) c) /\
  (forall e, validateMessageId id = inl e ->
             stopped_with (by_id m p server c id) c e /\ is_validation_error e) /\
  (validateMessageId "" = inl (validation_error "Message ID is required")) /\
  (Messages_get = by_id "GET" "/v1/messages/" /\
   Messages_getScheduled = by_id "GET" "/v1/messages/scheduled/" /\
   Messages_cancelScheduled = by_id "DELETE" "/v1/messages/scheduled/").
Proof.
  split; [| split; [| split; [reflexivity | repeat split]]].
  - intros H.
    assert (Henc : encodeURIComponent id = id).
    { apply encodeURIComponent_unreserved.
      unfold validateMessageId in H.
      destruct (id =? ""); [discriminate |].
      destruct (uuid_from 0 id) eqn:Hu; [exact (uuid_from_unreserved id 0 Hu) |].
      destruct (is_prefixed_id id) eqn:Hp; [| discriminate].
      exact (is_prefixed_id_unreserved id Hp). }
    split; [exact Henc |].
    unfold by_id, http_request. rewrite H, Henc. reflexivity.
  - intros e H. unfold by_id, stopped_with, stop. rewrite H. split; [reflexivity |].
    unfold validateMessageId in H. unfold is_validation_error.
    destruct (id =? ""); [injection H as <-; eauto |].
    destruct (negb (uuid_from 0 id) && negb (is_prefixed_id id));
      [injection H as <-; eauto | discriminate].
Qed.

Lemma Messages_by_id_path_witness :
  validateMessageId "msg_abc123" = inr tt /\
  run (Messages_get (Sample.server_of (Mock.always (Mock.success [])))
         (Mock.client_with 3) "msg_abc123")
  = request
      (Sample.server_of (Mock.always (Mock.success []))
         {| method := "GET"; path := "/v1/messages/msg_abc123";
            query := []; body := None |})
      (Mock.client_with 3).
Proof.
  split; [reflexivity |].
  exact (proj2 (proj1 (Messages_by_id_path "GET" "/v1/messages/" _
                         (Mock.client_with 3) "msg_abc123") eq_refl)).
Defined.

Lemma upper_hex_digit_inj (d d' : nat) :
  (d < 16)%nat -> (d' < 16)%nat ->
  upper_hex_digit d = upper_hex_digit d' -> d = d'.
Proof.
  intros Hd Hd' H. apply (f_equal nat_of_ascii) in H.
  unfold upper_hex_digit in H.
  destruct (Nat.ltb_spec d 10), (Nat.ltb_spec d' 10);
    rewrite !nat_ascii_embedding in H by lia; lia.
Qed.

Lemma upper_hex_digit_unreserved (d : nat) :
  (d < 16)%nat -> is_unreserved (upper_hex_digit d) = true.
Proof.
  intros Hd. do 16 (destruct d as [| d]; [reflexivity |]). lia.
Qed.

Lemma nat_of_ascii_inj (c c' : ascii) : nat_of_ascii c = nat_of_ascii c' -> c = c'.
Proof.
  intros H. rewrite <- (ascii_nat_embedding c), <- (ascii_nat_embedding c'), H.
  reflexivity.
Qed.

Lemma encodeURIComponent_inj (s : string) :
  forall t, encodeURIComponent s = encodeURIComponent t -> s = t.
Proof.
  induction s as [| c s IH]; intros [| c' t]; cbn [encodeURIComponent].
  - reflexivity.
  - destruct (is_unreserved c'); discriminate.
  - destruct (is_unreserved c); discriminate.
  - pose proof (nat_ascii_bounded c) as Hb. pose proof (nat_ascii_bounded c') as Hb'.
    pose proof (Nat.div_mod (nat_of_ascii c) 16 ltac:(lia)) as Hn.
    pose proof (Nat.div_mod (nat_of_ascii c') 16 ltac:(lia)) as Hn'.
    pose proof (Nat.mod_upper_bound (nat_of_ascii c) 16 ltac:(lia)) as Hr.
    pose proof (Nat.mod_upper_bound (nat_of_ascii c') 16 ltac:(lia)) as Hr'.
    remember (nat_of_ascii c / 16)%nat as q eqn:Eq.
    remember (nat_of_ascii c' / 16)%nat as q' eqn:Eq'.
    remember (nat_of_ascii c mod 16)%nat as r eqn:Er.
    remember (nat_of_ascii c' mod 16)%nat as r' eqn:Er'.
    destruct (is_unreserved c) eqn:Hc, (is_unreserved c') eqn:Hc'.
    + intros [= -> H]. f_equal. auto.
    + intros [= -> _]. discriminate Hc.
    + intros [= <- _]. discriminate Hc'.
    + intros [= H1 H2 H]. f_equal; [| auto].
      apply upper_hex_digit_inj in H1, H2; try lia.
      apply nat_of_ascii_inj. lia.
Qed.

Lemma encodeURIComponent_chars (s : string) :
  Js.forall_chars (fun ch => is_unreserved ch || Ascii.eqb ch "%")
    (encodeURIComponent s) = true.
Proof.
  unfold Js.forall_chars. induction s as [| c s IH]; [reflexivity |].
  cbn [encodeURIComponent]. pose proof (nat_ascii_bounded c) as Hb.
  destruct (is_unreserved c) eqn:Hc; cbn [list_ascii_of_string forallb].
  - rewrite Hc, IH. reflexivity.
  - rewrite !upper_hex_digit_unreserved, IH;
      [reflexivity | apply Nat.mod_upper_bound; lia
      | apply Nat.Div0.div_lt_upper_bound; lia].
Qed.

(** X18. [messages.getBatch] only asks that the identifier begin with
    [batch_], but what it puts in the path is the identifier encoded: the
    last segment of the path never contains a slash, a question mark, a hash,
    an ampersand, an equals sign, a backslash or a space, whatever the
    identifier, and two different identifiers never give the same path. An
    identifier without the prefix throws a plain [Error] before any
    request. *)
Theorem Messages_getBatch_path (server : Server) (c : HttpClient) (batchId : string) :
  (prefix "batch_" batchId = true ->
   run (Messages_getBatch server c batchId)
   = request
       (server {| method := "GET";
                  path := "/v1/messages/batch/" ++ encodeURIComponent batchId;
                  query := []; body := None |}) c) /\
  (prefix "batch_" batchId = false ->
   stopped_with (Messages_getBatch server c batchId) c
     (ThrowError "Invalid batch ID format")) /\
  Js.forall_chars (fun ch => negb (is_separator ch)) (encodeURIComponent batchId)
  = true /\
  (forall other : string,
      encodeURIComponent batchId = encodeURIComponent other -> batchId = other).
Proof.
  unfold Messages_getBatch, stopped_with, stop, http_request.
  split; [| split; [| split]].
  - intros H. rewrite H.
    destruct (batchId =? "") eqn:E; [| reflexivity].
    apply String.eqb_eq in E. subst. discriminate.
  - intros ->. rewrite orb_true_r. reflexivity.
  - pose proof (encodeURIComponent_chars batchId) as H.
    unfold Js.forall_chars in *. rewrite forallb_forall in *.
    intros ch Hch. specialize (H ch Hch).
    apply orb_true_iff in H. destruct H as [H | H].
    + destruct (is_separator ch) eqn:Hs; [| reflexivity].
      unfold is_separator in Hs. cbn in Hs.
      rewrite !orb_true_iff in Hs.
      repeat destruct Hs as [Hs | Hs];
        try (apply Ascii.eqb_eq in Hs; subst ch; discriminate H).
      discriminate Hs.
    + apply Ascii.eqb_eq in H. subst ch. reflexivity.
  - apply encodeURIComponent_inj.
Qed.

Lemma Messages_getBatch_path_witness :
  prefix "batch_" "batch_a/../b" = true /\
  run (Messages_getBatch (Sample.server_of (Mock.always (Mock.success [])))
         (Mock.client_with 3) "batch_a/../b")
  = request
      (Sample.server_of (Mock.always (Mock.success []))
         {| method := "GET"; path := "/v1/messages/batch/batch_a%2F..%2Fb";
            query := []; body := None |})
      (Mock.client_with 3).
Proof.
  split; [reflexivity |].
  exact (proj1 (Messages_getBatch_path _ (Mock.client_with 3) "batch_a/../b") eq_refl).
Defined.

(** ** messages.listAll *)

(** A request whose first exchange is a readable 2xx response. *)
Lemma request_first_fulfilled (env : Env) (c : HttpClient) (r : Response)
  (body : Js.value) :
  (0 <= maxRetries (config c))%Z ->
  fetch env 0 = Fulfilled r ->
  parseResponse r = inr body ->
  request env c
  = {| result := inr body;
       client := updateRateLimitInfo c (headers r);
       effects := [Fetch 0] |}.
Proof.
  intros Hm Hf Hp. unfold request.
  replace (Z.to_nat (maxRetries (config c) + 1))
    with (S (Z.to_nat (maxRetries (config c)))) by lia.
  cbn [request_loop]. unfold attempt_once. rewrite Hf. cbn [executeRequest].
  rewrite Hp. reflexivity.
Qed.

Lemma page_of_array (body : Js.value) (items : list Js.value) :
  body <> Js.Null ->
  Js.get_opt body "data" = Some (Js.Arr items) ->
  page_of body = inr (items, List.length items).
Proof.
  intros Hn Hd. unfold page_of. rewrite Hd.
  destruct body; try reflexivity. contradiction.
Qed.

Lemma batchSize_of_le (limit : option Q) : batchSize_of limit <= 100.
Proof. unfold batchSize_of. apply Q.le_min_r. Qed.

(** The client after the pages [l], each of which updates the snapshot. *)
Lemma listAll_loop_pages (server : Server) (b : Q)
  (responses : nat -> Response) (pages : nat -> list Js.value) (n : nat) :
  forall (fuel j : nat) (c : HttpClient),
    (0 <= maxRetries (config c))%Z ->
    (forall i, (j <= i <= j + n)%nat ->
       fetch (server (page_options b (page_offset b i))) 0 = Fulfilled (responses i) /\
       exists body,
         parseResponse (responses i) = inr body /\
         body <> Js.Null /\
         Js.get_opt body "data" = Some (Js.Arr (pages i))) ->
    (forall i, (j <= i < j + n)%nat ->
       b <= inject_Z (Z.of_nat (List.length (pages i)))) ->
    inject_Z (Z.of_nat (List.length (pages (j + n)%nat))) < b ->
    (n < fuel)%nat ->
    listAll_loop server fuel c b (page_offset b j)
    = {| yielded := List.concat (map pages (seq j (S n)));
         requests := map (fun i => page_options b (page_offset b i)) (seq j (S n));
         ending := Finished;
         after := fold_left
                    (fun c' i => updateRateLimitInfo c' (headers (responses i)))
                    (seq j (S n)) c |}.
Proof.
  induction n as [| n IH]; intros fuel j c Hm Hpage Hfull Hshort Hfuel;
    (destruct fuel as [| fuel]; [lia |]);
    cbn [listAll_loop]; cbv zeta;
    destruct (Hpage j ltac:(lia)) as [Hf [body [Hp [Hn Hd]]]];
    rewrite (request_first_fulfilled _ c _ _ Hm Hf Hp);
    cbn [result client]; rewrite (page_of_array _ _ Hn Hd).
  - rewrite Nat.add_0_r in Hshort.
    replace (Qle_bool b (inject_Z (Z.of_nat (List.length (pages j))))) with false.
    + cbn [negb seq map List.concat fold_left]. rewrite app_nil_r. reflexivity.
    + symmetry. apply not_true_is_false. rewrite Qle_bool_iff. lra.
  - replace (Qle_bool b (inject_Z (Z.of_nat (List.length (pages j))))) with true
      by (symmetry; apply Qle_bool_iff; apply Hfull; lia).
    cbn [negb].
    change (page_offset b j + b) with (page_offset b (S j)).
    rewrite (IH fuel (S j) (updateRateLimitInfo c (headers (responses j)))).
    + cbn [yielded requests ending after]. reflexivity.
    + rewrite updateRateLimitInfo_config. exact Hm.
    + intros i Hi. apply Hpage. lia.
    + intros i Hi. apply Hfull. lia.
    + replace (S j + n)%nat with (j + S n)%nat by lia. exact Hshort.
    + lia.
Qed.

(** X19. [messages.listAll] walks the pages: while the server answers the
    request for page [i] (offset [i * batchSize], limit [batchSize]) with a
    readable 2xx body whose [data] is an array of at least [batchSize]
    items, the next page is asked for; the first shorter page ends the
    iteration. The generator then has yielded the items of all the pages in
    order, has made one request per page and no other, and leaves the
    rate-limit snapshot as the pages' headers set it in turn. The batch size
    is never more than 100. *)
Theorem Messages_listAll_pages (server : Server) (c : HttpClient)
  (limit : option Q) (responses : nat -> Response)
  (pages : nat -> list Js.value) (k fuel : nat) :
  let b := batchSize_of limit in
  let ask := fun i => page_options b (page_offset b i) in
  (0 <= maxRetries (config c))%Z ->
  (forall i, (i <= k)%nat ->
     fetch (server (ask i)) 0 = Fulfilled (responses i) /\
     exists body,
       parseResponse (responses i) = inr body /\
       body <> Js.Null /\
       Js.get_opt body "data" = Some (Js.Arr (pages i))) ->
  (forall i, (i < k)%nat -> b <= inject_Z (Z.of_nat (List.length (pages i)))) ->
  inject_Z (Z.of_nat (List.length (pages k))) < b ->
  (k < fuel)%nat ->
  b <= 100 /\
  Messages_listAll server c limit fuel
  = {| yielded := List.concat (map pages (seq 0 (S k)));
       requests := map ask (seq 0 (S k));
       ending := Finished;
       after := fold_left
                  (fun c' i => updateRateLimitInfo c' (headers (responses i)))
                  (seq 0 (S k)) c |}.
Proof.
  intros b ask Hm Hpage Hfull Hshort Hfuel.
  split; [apply batchSize_of_le |].
  unfold Messages_listAll.
  change 0 with (page_offset (batchSize_of limit) 0).
  apply listAll_loop_pages; auto.
  - intros i Hi. apply Hpage. lia.
  - intros i Hi. apply Hfull. lia.
Qed.

Lemma Messages_listAll_pages_witness :
  let l := Messages_listAll (Sample.paged 250) (Mock.client_with 3) None 5 in
  ending l = Finished /\
  yielded l = map Sample.message (seq 0 250) /\
  List.length (requests l) = 3%nat.
Proof.
  cbv zeta.
  destruct (Messages_listAll_pages (Sample.paged 250) (Mock.client_with 3) None
              (fun i =>
                 {| status := 200;
                    headers := Mock.json_headers;
                    json := Some (Js.Obj
                      [("data",
                        Js.Arr (map Sample.message
                                  (seq (100 * i) (Nat.min 100 (250 - 100 * i)))))]);
                    text := "" |})
              (fun i => map Sample.message
                          (seq (100 * i) (Nat.min 100 (250 - 100 * i))))
              2 5) as [_ H].
  - vm_compute. discriminate.
  - intros i Hi.
    destruct i as [| [| [| i]]]; [| | | lia];
      (split; [vm_compute; reflexivity |]);
      eexists; (split; [vm_compute; reflexivity |]);
      (split; [discriminate | vm_compute; reflexivity]).
  - intros i Hi.
    destruct i as [| [| i]]; [| | lia]; vm_compute; discriminate.
  - vm_compute. reflexivity.
  - lia.
  - rewrite H. vm_compute. repeat split.
Defined.

Lemma listAll_loop_never_finishes (server : Server) (b : Q) (fuel : nat) :
  b <= 0 ->
  forall (c : HttpClient) (offset : Q),
    let l := listAll_loop server fuel c b offset in
    ending l <> Finished /\
    (ending l = Unfinished -> List.length (requests l) = fuel).
Proof.
  intros Hb. induction fuel as [| fuel IH]; intros c offset; cbv zeta.
  - split; [discriminate | reflexivity].
  - cbn [listAll_loop]. cbv zeta.
    destruct (result (request (server (page_options b offset)) c)) as [e | response];
      [split; discriminate |].
    destruct (page_of response) as [e | [items len]]; [split; discriminate |].
    replace (Qle_bool b (inject_Z (Z.of_nat len))) with true.
    + cbn [negb ending requests List.length].
      destruct (IH (client (request (server (page_options b offset)) c))
                  (offset + b)) as [H1 H2].
      split; [exact H1 | intros H; f_equal; exact (H2 H)].
    + symmetry. apply Qle_bool_iff.
      assert (0 <= inject_Z (Z.of_nat len)).
      { change 0 with (inject_Z 0). rewrite <- Zle_Qle. lia. }
      lra.
Qed.

(** X20. [messages.listAll] does not validate [limit] (unlike [list]): with
    a negative limit the batch size is that negative number, no page is ever
    shorter than it, and the generator never returns, whatever the server
    answers. It ends only by an error; as long as none is thrown it asks for
    one more page at each turn. *)
Theorem Messages_listAll_negative_limit (server : Server) (c : HttpClient)
  (limit : Q) (fuel : nat) :
  limit < 0 ->
  let l := Messages_listAll server c (Some limit) fuel in
  ending l <> Finished /\
  (ending l = Unfinished -> List.length (requests l) = fuel).
Proof.
  intros Hl. unfold Messages_listAll.
  apply listAll_loop_never_finishes.
  unfold batchSize_of.
  replace (Qeq_bool limit 0) with false.
  - pose proof (Q.le_min_l limit 100). lra.
  - symmetry. apply not_true_is_false. rewrite Qeq_bool_iff. lra.
Qed.

Lemma Messages_listAll_negative_limit_witness :
  -5 < 0 /\
  ending (Messages_listAll (Sample.paged 250) (Mock.client_with 3) (Some (-5)) 7)
  = Unfinished /\
  List.length
    (requests (Messages_listAll (Sample.paged 250) (Mock.client_with 3) (Some (-5)) 7))
  = 7%nat.
Proof.
  assert (Hneg : -5 < 0) by (vm_compute; reflexivity).
  split; [exact Hneg |].
  assert (He : ending (Messages_listAll (Sample.paged 250) (Mock.client_with 3)
                         (Some (-5)) 7) = Unfinished) by (vm_compute; reflexivity).
  split; [exact He |].
  exact (proj2 (Messages_listAll_negative_limit (Sample.paged 250)
                  (Mock.client_with 3) (-5) 7 Hneg) He).
Defined.

(** ** messages.schedule *)

(** X21. [messages.schedule] checks the recipient, the text and the sender
    as [send] does, and only then the date: a request that fails validation
    throws the validation error whatever its date. With valid fields, a date
    that does not parse throws a plain [Error], and so does a date that is
    not more than one minute after the present, the exact minute included;
    a later date is requested, with [scheduledAt] in the body as the caller
    wrote it. None of the errors calls the transport. *)
Theorem Messages_schedule_checks (Date_parse : string -> option Z)
  (server : Server) (c : HttpClient) (now : Z) (r : ScheduleMessageRequest) :
  let k := Messages_schedule Date_parse server c now r in
  (is_e164 (sch_to r) = false \/ sch_text r = "" \/
   valid_sender (sch_from r) = false ->
   exists e, stopped_with k c e /\ is_validation_error e) /\
  (is_e164 (sch_to r) = true -> sch_text r <> "" ->
   valid_sender (sch_from r) = true ->
   (Date_parse (sch_scheduledAt r) = None ->
    stopped_with k c
      (ThrowError "Invalid scheduledAt format. Use ISO 8601 format.")) /\
   (forall t, Date_parse (sch_scheduledAt r) = Some t ->
      (Z.abs (now + 60000) <= 8640000000000000)%Z ->
      ((t <= now + 60000)%Z ->
       stopped_with k c
         (ThrowError "scheduledAt must be at least 1 minute in the future.")) /\
      ((now + 60000 < t)%Z ->
       run k = request (server (schedule_options r)) c /\
       exists b, body (schedule_options r) = Some b /\
                 Js.get "scheduledAt" b = Some (Js.Str (sch_scheduledAt r))))).
Proof.
  cbv zeta.
  unfold Messages_schedule, stopped_with, stop, http_request.
  destruct (validatePhoneNumber_ok (sch_to r)) as [Hpy Hpn].
  destruct (validateMessageText_ok (sch_text r)) as [Hty Htn].
  destruct (validateSenderId_ok (sch_from r)) as [Hsy Hsn].
  split.
  - intros H.
    destruct (is_e164 (sch_to r)) eqn:Hp.
    + rewrite (Hpy eq_refl).
      destruct (String.eqb_spec (sch_text r) "") as [Ht | Ht].
      * rewrite (Htn Ht). unfold is_validation_error. cbn [run]. eauto.
      * specialize (Hty Ht).
        destruct (validateMessageText (sch_text r)) as [checked w].
        simpl in Hty. subst checked.
        destruct H as [H | [H | H]]; [discriminate | contradiction |].
        destruct (Hsn H) as [e [He [_ Hv]]]. rewrite He. cbn [run]. eauto.
    + destruct (Hpn eq_refl) as [e [He Hv]]. rewrite He. cbn [run]. eauto.
  - intros Hp Ht Hs. rewrite (Hpy Hp).
    specialize (Hty Ht).
    destruct (validateMessageText (sch_text r)) as [checked w].
    simpl in Hty. subst checked. rewrite (Hsy Hs).
    split.
    + intros ->. reflexivity.
    + intros t -> Hrange.
      change (60 * 1000)%Z with 60000%Z.
      unfold time_clip, date_le.
      replace (Z.abs (now + 60000) <=? 8640000000000000)%Z with true
        by (symmetry; apply Z.leb_le; exact Hrange).
      split; intros Hcmp.
      * replace (t <=? now + 60000)%Z with true
          by (symmetry; apply Z.leb_le; exact Hcmp).
        reflexivity.
      * replace (t <=? now + 60000)%Z with false
          by (symmetry; apply Z.leb_gt; exact Hcmp).
        split; [reflexivity |].
        eexists. split; [reflexivity | reflexivity].
Qed.

Lemma Messages_schedule_checks_witness :
  run (Messages_schedule Clock.parse
         (Sample.server_of (Mock.always (Mock.success [])))
         (Mock.client_with 3) Clock.now Clock.reminder)
  = request
      (Sample.server_of (Mock.always (Mock.success []))
         (schedule_options Clock.reminder))
      (Mock.client_with 3).
Proof.
  refine (proj1 (proj2 (proj2 (proj2 (Messages_schedule_checks Clock.parse _
            (Mock.client_with 3) Clock.now Clock.reminder) _ _ _)
            1893456000000%Z _ _) _)).
  - reflexivity.
  - discriminate.
  - reflexivity.
  - reflexivity.
  - vm_compute. discriminate.
  - vm_compute. reflexivity.
Defined.
